(** * c3d_viewer: playback, trails, camera gestures and viewports

    A shallow embedding of [c3d_viewer.py]: the [Viewer] class, its GLUT
    callbacks, and the [collections.deque] it keeps marker trails in.

    Conventions of the embedding:
    - a Python [int] is a [Z]; the Python 2 operator [/] on two ints is floor
      division ([Z.div]); [int(x)] on a float truncates towards zero
      ([Z.quot] on a quotient of integers);
    - a Python [float] is an exact rational [Q], compared with [==]; the
      division of floats raises [ZeroDivisionError] on a zero divisor, which
      the embedding writes out.  The rounding of binary64 is not part of
      the embedding: a result that the code rounds, lets underflow to zero
      or overflow to infinity is the exact rational here;
    - a method that mutates [self] is a function from the object to an
      [outcome]: the object as it stands when the call returns or raises,
      what was returned or raised, and the calls made to the outside
      (sleeping, GLUT, OpenGL) in the order they were made;
    - what a callback reads from the outside is an argument of it: the two
      readings of [time.time()] in [handle_idle], the result of
      [glutGetModifiers()] in [handle_mouse_button]. *)

From Stdlib Require Import ZArith QArith Lia Ascii String.
From stdpp Require Import base tactics option list.

Local Open Scope Z_scope.

(** ** Lists: the last [n] elements *)

Definition lastn {A} (n : nat) (l : list A) : list A :=
  drop (length l - n) l.

(** ** Exceptions *)

Inductive exn :=
| SystemExit (code : Z)
| IndexError
| StopIteration
| ZeroDivisionError
| TypeError
| ValueError
| OverflowError.

(** ** collections.deque with a maximum length *)

(** The largest [Py_ssize_t] of a 64-bit build. *)
Definition PY_SSIZE_T_MAX : Z := 2 ^ 63 - 1.

Module Deque.

Record t (A : Type) := mk { items : list A; maxlen : Z }.
Arguments mk {A} _ _.
Arguments items {A} _.
Arguments maxlen {A} _.

Definition size {A} (d : t A) : nat := length (items d).

(** [deque(iterable, maxlen)]: [maxlen] is first converted to a
    [Py_ssize_t], which raises [OverflowError] when it does not fit; a
    negative [maxlen] is then a [ValueError]; otherwise the elements are
    appended one after the other, so that the last [maxlen] of them
    remain. *)
Definition make {A} (iterable : list A) (n : Z) : exn + t A :=
  if (n <? - PY_SSIZE_T_MAX - 1) || (PY_SSIZE_T_MAX <? n)
  then inl OverflowError
  else if n <? 0 then inl ValueError
  else inr (mk (lastn (Z.to_nat n) iterable) n).

(** [d.append(x)]: add on the right, then drop the leftmost element when the
    deque has become longer than [maxlen]. *)
Definition append {A} (d : t A) (x : A) : t A :=
  let l := items d ++ [x] in
  mk (if maxlen d <? Z.of_nat (length l) then tail l else l) (maxlen d).

(** A sequence of [append] calls. *)
Definition extend {A} (d : t A) (xs : list A) : t A := fold_left append xs d.

(** The representation invariant of a bounded deque. *)
Definition wf {A} (d : t A) : Prop :=
  0 <= maxlen d /\ Z.of_nat (size d) <= maxlen d.

End Deque.

(** ** Values the viewer handles *)

(** A row of the point array of a frame: x, y, z and the further columns. *)
Definition point := list Q.

(** [points, analog]: what the frame iterator yields. *)
Definition frame := (list point * list (list Q))%type.

(** The reader handed to [Viewer.__init__]: the frames [read_frames()] will
    yield, and the values of [frame_rate()] and [num_points()]. *)
Record Reader := mkReader {
  read_frames : list frame;
  frame_rate : Q;
  num_points : Z
}.

Inductive matrix_mode := GL_PROJECTION | GL_MODELVIEW.

(** The calls to the outside that the callbacks make. *)
Inductive call :=
| time_sleep (secs : Q)
| glutPostRedisplay
| glutSwapBuffers
| glClearColor (r g b a : Q)
| glClearDepth (d : Q)
| glClear
| glViewport (x y w h : Z)
| glMatrixMode (m : matrix_mode)
| glLoadIdentity
| gluPerspective (fovy aspect near far : Q)
| glOrtho (l r b t n f : Q)
| glPushMatrix
| glPopMatrix
| glTranslate (x y z : Q)
| glTranslated (p : point)
| glRotate (angle x y z : Q)
| glScalef (x y z : Q)
| glutSolidSphere (radius : Q) (slices stacks : Z)
| glColor4f (r g b a : Q)
| glNewList (id : Z)
| glEndList
| glCallList (id : Z)
| glLightfv (light : Z) (pname : Z) (params : list Q)
| glLineWidth (w : Q)
| glBegin
| glVertex3f (x y z : Q)
| glEnd.

(** Constants of the GLUT header. *)
Definition GLUT_LEFT_BUTTON : Z := 0.
Definition GLUT_MIDDLE_BUTTON : Z := 1.
Definition GLUT_RIGHT_BUTTON : Z := 2.
Definition GLUT_DOWN : Z := 0.
Definition GLUT_UP : Z := 1.
Definition GLUT_ACTIVE_SHIFT : Z := 1.
Definition GLUT_ACTIVE_CTRL : Z := 2.
Definition GLUT_ACTIVE_ALT : Z := 4.
Definition GLUT_KEY_LEFT : Z := 100.
Definition GLUT_KEY_UP : Z := 101.
Definition GLUT_KEY_RIGHT : Z := 102.
Definition GLUT_KEY_DOWN : Z := 103.
Definition GLUT_KEY_PAGE_UP : Z := 104.
Definition GLUT_KEY_PAGE_DOWN : Z := 105.

(** The module-level colour table. *)
Definition color := (Q * Q * Q)%type.
Definition WHITE : color := (1, 1, 1)%Q.
Definition RED : color := (1, 2 # 10, 2 # 10)%Q.
Definition YELLOW : color := (1, 1, 2 # 10)%Q.
Definition ORANGE : color := (1, 7 # 10, 2 # 10)%Q.
Definition GREEN : color := (2 # 10, 9 # 10, 2 # 10)%Q.
Definition BLUE : color := (2 # 10, 3 # 10, 9 # 10)%Q.
Definition COLORS : list color := [WHITE; RED; YELLOW; GREEN; BLUE; ORANGE].

(** ** The Viewer object *)

Record Viewer := mkViewer {
  _frames : list frame;
  _frame_rate : Q;
  maxlen : Z;
  visible : list bool;
  _trails : list (Deque.t point);
  theta : Q;
  phi : Q;
  rho : Q;
  paused : bool;
  _last_time : Q;
  _mouse_button : option (Z * Z);
  _width : Z;
  _height : Z;
  _d_theta : Q;
  _d_phi : Q;
  _d_rho : Q;
  _model_list : Z
}.

Definition set_frames (x : list frame) (v : Viewer) : Viewer :=
  mkViewer x (_frame_rate v) (maxlen v) (visible v) (_trails v) (theta v)
    (phi v) (rho v) (paused v) (_last_time v) (_mouse_button v) (_width v)
    (_height v) (_d_theta v) (_d_phi v) (_d_rho v) (_model_list v).

Definition set_maxlen (x : Z) (v : Viewer) : Viewer :=
  mkViewer (_frames v) (_frame_rate v) x (visible v) (_trails v) (theta v)
    (phi v) (rho v) (paused v) (_last_time v) (_mouse_button v) (_width v)
    (_height v) (_d_theta v) (_d_phi v) (_d_rho v) (_model_list v).

Definition set_visible (x : list bool) (v : Viewer) : Viewer :=
  mkViewer (_frames v) (_frame_rate v) (maxlen v) x (_trails v) (theta v)
    (phi v) (rho v) (paused v) (_last_time v) (_mouse_button v) (_width v)
    (_height v) (_d_theta v) (_d_phi v) (_d_rho v) (_model_list v).

Definition set_trails (x : list (Deque.t point)) (v : Viewer) : Viewer :=
  mkViewer (_frames v) (_frame_rate v) (maxlen v) (visible v) x (theta v)
    (phi v) (rho v) (paused v) (_last_time v) (_mouse_button v) (_width v)
    (_height v) (_d_theta v) (_d_phi v) (_d_rho v) (_model_list v).

Definition set_theta (x : Q) (v : Viewer) : Viewer :=
  mkViewer (_frames v) (_frame_rate v) (maxlen v) (visible v) (_trails v) x
    (phi v) (rho v) (paused v) (_last_time v) (_mouse_button v) (_width v)
    (_height v) (_d_theta v) (_d_phi v) (_d_rho v) (_model_list v).

Definition set_phi (x : Q) (v : Viewer) : Viewer :=
  mkViewer (_frames v) (_frame_rate v) (maxlen v) (visible v) (_trails v)
    (theta v) x (rho v) (paused v) (_last_time v) (_mouse_button v)
    (_width v) (_height v) (_d_theta v) (_d_phi v) (_d_rho v)
    (_model_list v).

Definition set_rho (x : Q) (v : Viewer) : Viewer :=
  mkViewer (_frames v) (_frame_rate v) (maxlen v) (visible v) (_trails v)
    (theta v) (phi v) x (paused v) (_last_time v) (_mouse_button v)
    (_width v) (_height v) (_d_theta v) (_d_phi v) (_d_rho v)
    (_model_list v).

Definition set_paused (x : bool) (v : Viewer) : Viewer :=
  mkViewer (_frames v) (_frame_rate v) (maxlen v) (visible v) (_trails v)
    (theta v) (phi v) (rho v) x (_last_time v) (_mouse_button v) (_width v)
    (_height v) (_d_theta v) (_d_phi v) (_d_rho v) (_model_list v).

Definition set_last_time (x : Q) (v : Viewer) : Viewer :=
  mkViewer (_frames v) (_frame_rate v) (maxlen v) (visible v) (_trails v)
    (theta v) (phi v) (rho v) (paused v) x (_mouse_button v) (_width v)
    (_height v) (_d_theta v) (_d_phi v) (_d_rho v) (_model_list v).

Definition set_mouse_button (x : option (Z * Z)) (v : Viewer) : Viewer :=
  mkViewer (_frames v) (_frame_rate v) (maxlen v) (visible v) (_trails v)
    (theta v) (phi v) (rho v) (paused v) (_last_time v) x (_width v)
    (_height v) (_d_theta v) (_d_phi v) (_d_rho v) (_model_list v).

Definition set_width (x : Z) (v : Viewer) : Viewer :=
  mkViewer (_frames v) (_frame_rate v) (maxlen v) (visible v) (_trails v)
    (theta v) (phi v) (rho v) (paused v) (_last_time v) (_mouse_button v) x
    (_height v) (_d_theta v) (_d_phi v) (_d_rho v) (_model_list v).

Definition set_height (x : Z) (v : Viewer) : Viewer :=
  mkViewer (_frames v) (_frame_rate v) (maxlen v) (visible v) (_trails v)
    (theta v) (phi v) (rho v) (paused v) (_last_time v) (_mouse_button v)
    (_width v) x (_d_theta v) (_d_phi v) (_d_rho v) (_model_list v).

Definition set_d_theta (x : Q) (v : Viewer) : Viewer :=
  mkViewer (_frames v) (_frame_rate v) (maxlen v) (visible v) (_trails v)
    (theta v) (phi v) (rho v) (paused v) (_last_time v) (_mouse_button v)
    (_width v) (_height v) x (_d_phi v) (_d_rho v) (_model_list v).

Definition set_d_phi (x : Q) (v : Viewer) : Viewer :=
  mkViewer (_frames v) (_frame_rate v) (maxlen v) (visible v) (_trails v)
    (theta v) (phi v) (rho v) (paused v) (_last_time v) (_mouse_button v)
    (_width v) (_height v) (_d_theta v) x (_d_rho v) (_model_list v).

Definition set_d_rho (x : Q) (v : Viewer) : Viewer :=
  mkViewer (_frames v) (_frame_rate v) (maxlen v) (visible v) (_trails v)
    (theta v) (phi v) (rho v) (paused v) (_last_time v) (_mouse_button v)
    (_width v) (_height v) (_d_theta v) (_d_phi v) x (_model_list v).

(** ** Methods as transformers of the object *)

Record outcome (A : Type) := mkOutcome {
  self : Viewer;
  calls : list call;
  result : exn + A
}.
Arguments mkOutcome {A} _ _ _.
Arguments self {A} _.
Arguments calls {A} _.
Arguments result {A} _.

Definition M (A : Type) : Type := Viewer -> outcome A.

#[global] Instance M_ret : MRet M := fun A a v => mkOutcome v [] (inr a).

#[global] Instance M_bind : MBind M := fun A B f m v =>
  match m v with
  | mkOutcome v1 cs1 (inl e) => mkOutcome v1 cs1 (inl e)
  | mkOutcome v1 cs1 (inr a) =>
      match f a v1 with
      | mkOutcome v2 cs2 r => mkOutcome v2 (cs1 ++ cs2) r
      end
  end.

Definition get : M Viewer := fun v => mkOutcome v [] (inr v).

Definition modify (f : Viewer -> Viewer) : M unit :=
  fun v => mkOutcome (f v) [] (inr tt).

Definition emit (c : call) : M unit := fun v => mkOutcome v [c] (inr tt).

Definition raise {A} (e : exn) : M A := fun v => mkOutcome v [] (inl e).

(** [for x in l: body(x)] *)
Fixpoint foreach {A} (l : list A) (body : A -> M unit) : M unit :=
  match l with
  | [] => mret tt
  | x :: l' => body x;; foreach l' body
  end.

(** ** Python operators *)

(** [x / y] on floats. *)
Definition fdiv (x y : Q) : M Q :=
  if Qeq_bool y 0 then raise ZeroDivisionError else mret (x / y)%Q.

(** [x > y] on floats. *)
Definition Qgt_bool (x y : Q) : bool := negb (Qle_bool x y).

(** The position that the index [i] denotes in a list of length [n]. *)
Definition norm_index (n : nat) (i : Z) : option nat :=
  let j := if i <? 0 then i + Z.of_nat n else i in
  if (0 <=? j) && (j <? Z.of_nat n) then Some (Z.to_nat j) else None.

(** [l[i]] *)
Definition getitem {A} (l : list A) (i : Z) : M A :=
  match norm_index (length l) i ≫= (l !!.) with
  | Some a => mret a
  | None => raise IndexError
  end.

(** [l[i] = a], giving the list after the assignment. *)
Definition setitem {A} (l : list A) (i : Z) (a : A) : M (list A) :=
  match norm_index (length l) i with
  | Some j => mret (<[j := a]> l)
  | None => raise IndexError
  end.

(** [char in s] for a string [char] of one character. *)
Definition in_str (char : ascii) (s : string) : bool :=
  existsb (Ascii.eqb char) (list_ascii_of_string s).

(** [int(char)] for a decimal digit. *)
Definition int_of_digit (char : ascii) : Z := Z.of_N (N_of_ascii char) - 48.

(** [xrange(n)] has no element for a negative [n]. *)
Definition xrange_len (n : Z) : nat := Z.to_nat n.

(** ** The methods of Viewer *)

Section Viewer.

(** [math.exp], which the embedding does not interpret: [None] where it
    raises [OverflowError] (arguments above about 709.78). *)
Variable exp : Q -> option Q.

(** [[collections.deque(t, maxlen) for t in iterables]]: the deques are
    made in order, and the first one that cannot be made raises. *)
Fixpoint rebuild (n : Z) (iterables : list (list point))
  : exn + list (Deque.t point) :=
  match iterables with
  | [] => inr []
  | t :: iterables' =>
      match Deque.make t n with
      | inl e => inl e
      | inr d =>
          match rebuild n iterables' with
          | inl e => inl e
          | inr ds => inr (d :: ds)
          end
      end
  end.

Definition _reset_trails : M unit :=
  v ← get;
  match rebuild (maxlen v) (Deque.items <$> _trails v) with
  | inr ts => modify (set_trails ts)
  | inl e => raise e
  end.

(** [Viewer(c3d_reader)].  [model_list] is what [glGenLists(1)] returns; the
    calls that set up the window and the GL state leave nothing else in the
    object. *)
Definition __init__ (c3d_reader : Reader) (model_list : Z) : exn + Viewer :=
  let n := xrange_len (num_points c3d_reader) in
  match rebuild 1 (replicate n []) with
  | inl e => inl e
  | inr ts =>
      inr (mkViewer (read_frames c3d_reader) (frame_rate c3d_reader)
             1 (replicate n true) ts
             350 300 1 false
             0 None 800 600 0 0 1 model_list)
  end.

Definition handle_reshape (width height : Z) : M unit :=
  modify (set_width width);;
  modify (set_height height).

Definition handle_mouse_movement (x y : Z) : M unit :=
  v ← get;
  match _mouse_button v with
  | None => raise TypeError
  | Some (button, modifier) =>
      let button :=
        if button =? GLUT_LEFT_BUTTON then
          let button :=
            if Z.land modifier GLUT_ACTIVE_CTRL =? 0 then button
            else GLUT_MIDDLE_BUTTON in
          if Z.land modifier GLUT_ACTIVE_ALT =? 0 then button
          else GLUT_RIGHT_BUTTON
        else button in
      let cx := _width v / 2 in
      let cy := _height v / 2 in
      (if button =? GLUT_LEFT_BUTTON then
         d ← fdiv (5 * inject_Z (y - cy)) (inject_Z (_height v));
         modify (set_d_phi d);;
         d ← fdiv (5 * inject_Z (x - cx)) (inject_Z (_width v));
         modify (set_d_theta d)
       else mret tt);;
      (if button =? GLUT_RIGHT_BUTTON then
         q ← fdiv (inject_Z (y - cy)) (inject_Z (_height v));
         match exp (q / (13 # 10)) with
         | Some r => modify (set_d_rho r)
         | None => raise OverflowError
         end
       else mret tt)
  end.

Definition handle_mouse_button (button state modifiers x y : Z) : M unit :=
  if state =? GLUT_UP then
    modify (set_mouse_button None);;
    modify (set_d_theta 0);;
    modify (set_d_phi 0);;
    modify (set_d_rho 1)
  else
    modify (set_mouse_button (Some (button, modifiers)));;
    handle_mouse_movement x y.

Definition handle_keypress (char : ascii) (x y : Z) : M unit :=
  if Ascii.eqb char "q" then raise (SystemExit 0)
  else if in_str char "0123456789"%string then
    v ← get;
    b ← getitem (visible v) (int_of_digit char);
    l ← setitem (visible v) (int_of_digit char) (xorb b true);
    modify (set_visible l)
  else if Ascii.eqb char "p" then
    modify (fun v => set_paused (xorb (paused v) true) v)
  else if in_str char "+="%string then
    modify (fun v => set_maxlen (maxlen v * 2) v);;
    _reset_trails
  else if in_str char "_-"%string then
    modify (fun v => set_maxlen (Z.max 1 (maxlen v / 2)) v);;
    _reset_trails
  else mret tt.

Definition handle_special_keypress (key x y : Z) : M unit :=
  if key =? GLUT_KEY_PAGE_UP then
    modify (fun v => set_rho (rho v / (3 # 2)) v)
  else if key =? GLUT_KEY_PAGE_DOWN then
    modify (fun v => set_rho (rho v * (3 # 2)) v)
  else if key =? GLUT_KEY_UP then
    modify (fun v => set_phi (phi v + 5) v)
  else if key =? GLUT_KEY_DOWN then
    modify (fun v => set_phi (phi v - 5) v)
  else if key =? GLUT_KEY_LEFT then
    modify (fun v => set_theta (theta v - 5) v)
  else if key =? GLUT_KEY_RIGHT then
    modify (fun v => set_theta (theta v + 5) v)
  else mret tt.

(** [for trail, point in zip(self._trails, points): trail.append(point[:3])].
    [zip] stops at the shorter of the two; the deques are changed in place. *)
Fixpoint append_points (trails : list (Deque.t point)) (points : list point)
  : list (Deque.t point) :=
  match trails, points with
  | trail :: trails', point :: points' =>
      Deque.append trail (take 3 point) :: append_points trails' points'
  | _, _ => trails
  end.

(** [self._frames.next()] *)
Definition next_frame : M frame :=
  v ← get;
  match _frames v with
  | [] => raise StopIteration
  | f :: rest => modify (set_frames rest);; mret f
  end.

(** [now] and [now'] are the values of the first and of the second call of
    [time.time()]; the second call is only made when a frame was read. *)
Definition handle_idle (now now' : Q) : M unit :=
  modify (fun v => set_theta (theta v + _d_theta v) v);;
  modify (fun v => set_phi (phi v + _d_phi v) v);;
  v ← get;
  r ← fdiv (rho v) (_d_rho v);
  modify (set_rho r);;
  v ← get;
  if paused v then mret tt
  else
    let elapsed := (now - _last_time v)%Q in
    period ← fdiv 1 (_frame_rate v);
    (if Qgt_bool elapsed period then
       f ← next_frame;
       modify (fun v => set_trails (append_points (_trails v) (fst f)) v);;
       modify (set_last_time now')
     else
       emit (time_sleep (period - elapsed)));;
    emit glutPostRedisplay.

Definition GL_LIGHT0 : Z := 16384.
Definition GL_LIGHT1 : Z := 16385.
Definition GL_LIGHT2 : Z := 16386.
Definition GL_LIGHT3 : Z := 16387.
Definition GL_DIFFUSE : Z := 4609.
Definition GL_SPECULAR : Z := 4610.
Definition GL_POSITION : Z := 4611.

(** The lights and the axis system compiled at the start of the model list;
    they depend on nothing in the object. *)
Definition lights_and_axes : list call :=
  [ glLightfv GL_LIGHT0 GL_POSITION [1; 1; 1; 0];
    glLightfv GL_LIGHT0 GL_DIFFUSE [1; 1; 1; 1 # 2];
    glLightfv GL_LIGHT0 GL_SPECULAR [1; 1; 1; 1 # 2];
    glLightfv GL_LIGHT1 GL_POSITION [1; 0; 0; 1];
    glLightfv GL_LIGHT1 GL_DIFFUSE [1; 0; 0; 8 # 10];
    glLightfv GL_LIGHT1 GL_SPECULAR [1; 0; 0; 8 # 10];
    glLightfv GL_LIGHT2 GL_POSITION [0; 1; 0; 1];
    glLightfv GL_LIGHT2 GL_DIFFUSE [0; 1; 0; 8 # 10];
    glLightfv GL_LIGHT2 GL_SPECULAR [0; 1; 0; 8 # 10];
    glLightfv GL_LIGHT3 GL_POSITION [0; 0; 1; 1];
    glLightfv GL_LIGHT3 GL_DIFFUSE [0; 0; 1; 8 # 10];
    glLightfv GL_LIGHT3 GL_SPECULAR [0; 0; 1; 8 # 10];
    glLineWidth 1;
    glBegin;
    glColor4f 1 0 0 1; glVertex3f 0 0 0; glVertex3f 100 0 0;
    glColor4f 0 1 0 1; glVertex3f 0 0 0; glVertex3f 0 100 0;
    glColor4f 0 0 1 1; glVertex3f 0 0 0; glVertex3f 0 0 100;
    glEnd ]%Q.

(** [label] is the marker's index, which the source passes as [str(i)] and
    does not use. *)
Definition render_marker_points (label : nat) (c : color)
    (points : list point) : M unit :=
  emit (glColor4f (fst (fst c)) (snd (fst c)) (snd c) (7 # 10));;
  foreach points (fun point =>
    emit glPushMatrix;;
    emit (glTranslated point);;
    v ← get;
    r ← fdiv 1 (rho v);
    emit (glutSolidSphere (r / 200) 13 13);;
    emit glPopMatrix).

Definition render_model : M unit :=
  v ← get;
  emit (glNewList (_model_list v));;
  foreach lights_and_axes emit;;
  foreach (imap pair (_trails v)) (fun ip =>
    v ← get;
    b ← getitem (visible v) (Z.of_nat (fst ip));
    if negb b then mret tt
    else
      c ← getitem COLORS (Z.of_nat (fst ip) mod Z.of_nat (length COLORS));
      render_marker_points (fst ip) c (Deque.items (snd ip)));;
  emit glEndList.

Definition handle_draw : M unit :=
  emit (glClearColor (9 # 10) (9 # 10) (9 # 10) 1);;
  emit (glClearDepth 1);;
  emit glClear;;
  render_model;;
  v ← get;
  let w := Z.quot (2 * _width v) 3 in
  let h := Z.quot (_height v) 3 in
  emit (glViewport 0 0 w (_height v));;
  emit (glMatrixMode GL_PROJECTION);;
  emit glLoadIdentity;;
  aspect ← fdiv (inject_Z w) (inject_Z (_height v));
  emit (gluPerspective 45 aspect (1 # 100) 10);;
  emit (glMatrixMode GL_MODELVIEW);;
  emit glPushMatrix;;
  emit (glTranslate 0 0 (-1));;
  emit (glRotate (phi v) 1 0 0);;
  emit (glRotate (theta v) 0 0 1);;
  emit (glScalef (rho v) (rho v) (rho v));;
  emit (glCallList (_model_list v));;
  emit glPopMatrix;;
  r ← fdiv 1 (rho v);
  let z := (r / 2)%Q in
  emit (glMatrixMode GL_PROJECTION);;
  emit glLoadIdentity;;
  emit (glOrtho (- z) z (- z) z (- z) z);;
  emit (glViewport w 0 (w / 2) h);;
  emit (glMatrixMode GL_MODELVIEW);;
  emit glPushMatrix;;
  emit (glTranslate 0 0 (-1));;
  emit (glScalef 2 2 2);;
  emit (glCallList (_model_list v));;
  emit glPopMatrix;;
  emit (glViewport w h (w / 2) h);;
  emit (glMatrixMode GL_MODELVIEW);;
  emit glPushMatrix;;
  emit (glRotate (-90) 1 0 0);;
  emit (glTranslate 0 0 (-1));;
  emit (glScalef 2 2 2);;
  emit (glCallList (_model_list v));;
  emit glPopMatrix;;
  emit (glViewport w (2 * h) (w / 2) h);;
  emit (glMatrixMode GL_MODELVIEW);;
  emit glPushMatrix;;
  emit (glRotate (-90) 1 0 0);;
  emit (glRotate (-90) 0 0 1);;
  emit (glTranslate 0 0 (-1));;
  emit (glScalef 2 2 2);;
  emit (glCallList (_model_list v));;
  emit glPopMatrix;;
  emit glutSwapBuffers.

(** ** The GLUT main loop *)

(** What GLUT delivers to the registered callbacks. *)
Inductive event :=
| Keypress (char : ascii) (x y : Z)
| SpecialKeypress (key x y : Z)
| Reshape (width height : Z)
| MouseButton (button state modifiers x y : Z)
| MouseMovement (x y : Z)
| Idle (now now' : Q)
| Draw.

Definition dispatch (e : event) : M unit :=
  match e with
  | Keypress char x y => handle_keypress char x y
  | SpecialKeypress key x y => handle_special_keypress key x y
  | Reshape width height => handle_reshape width height
  | MouseButton button state modifiers x y =>
      handle_mouse_button button state modifiers x y
  | MouseMovement x y => handle_mouse_movement x y
  | Idle now now' => handle_idle now now'
  | Draw => handle_draw
  end.

(** [glutMainLoop()] over the events of a session: an exception raised in a
    callback leaves the loop. *)
Definition mainloop (events : list event) : M unit := foreach events dispatch.

End Viewer.

(** The rectangles of the [glViewport] calls made, in order. *)
Definition viewports (cs : list call) : list (Z * Z * Z * Z) :=
  omap (fun c =>
    match c with glViewport x y w h => Some (x, y, w, h) | _ => None end) cs.

(** The pauses made with [time.sleep], in order. *)
Definition sleeps (cs : list call) : list Q :=
  omap (fun c => match c with time_sleep s => Some s | _ => None end) cs.

(** ** Notions used in the statements *)

(** The camera after the three updates that open [handle_idle]. *)
Definition integrated (v : Viewer) : Viewer :=
  set_rho (rho v / _d_rho v)
    (set_phi (phi v + _d_phi v) (set_theta (theta v + _d_theta v) v)).

(** An outcome with the object changed by [f]. *)
Definition map_self {A} (f : Viewer -> Viewer) (o : outcome A) : outcome A :=
  mkOutcome (f (self o)) (calls o) (result o).

(** The key events that toggle a visibility flag. *)
Definition is_toggle (e : event) : bool :=
  match e with
  | Keypress char _ _ =>
      negb (Ascii.eqb char "q") && in_str char "0123456789"%string
  | _ => false
  end.

(** The events of a session without its visibility toggles. *)
Definition strip_toggles (events : list event) : list event :=
  filter (fun e => is_toggle e = false) events.

(** Every visibility toggle among the events names one of [n] markers. *)
Definition toggles_in_range (n : nat) (events : list event) : Prop :=
  Forall (fun e =>
    match e with
    | Keypress char _ _ =>
        is_toggle e = true -> int_of_digit char < Z.of_nat n
    | _ => True
    end) events.

(** What holds of the object from its construction on. *)
Definition inv (v : Viewer) : Prop :=
  1 <= maxlen v /\
  ~ (rho v == 0)%Q /\
  length (visible v) = length (_trails v) /\
  Forall (fun d => Deque.wf d /\ Deque.maxlen d = maxlen v) (_trails v).

(** ** A sample session *)

Definition sample_frames : list frame :=
  [ ([[1; 2; 3; 0; 0]; [4; 5; 6; 0; 0]], []);
    ([[7; 8; 9; 0; 0]; [10; 11; 12; 0; 0]], []) ]%Q.

(** A reader of two markers and two frames at the given rate. *)
Definition sample_reader (rate : Q) : Reader := mkReader sample_frames rate 2.

(** The viewer constructed from it. *)
Definition sample_viewer (rate : Q) : Viewer :=
  mkViewer sample_frames rate 1 [true; true] [Deque.mk [] 1; Deque.mk [] 1]
    350 300 1 false 0 None 800 600 0 0 1 1.

(** A stand-in for [math.exp], which the embedding leaves open: it raises
    where [math.exp] does, on arguments above 709. *)
Definition sample_exp (q : Q) : option Q :=
  if Qle_bool q 709 then Some (q + 1)%Q else None.

(** ** What the model list is made of *)

(** The calls that draw one marker: its colour, then a sphere at each point
    of its trail. *)
Definition marker_calls (scale : Q) (c : color) (points : list point)
  : list call :=
  glColor4f (fst (fst c)) (snd (fst c)) (snd c) (7 # 10)
  :: (points ≫= fun p =>
        [glPushMatrix; glTranslated p;
         glutSolidSphere (1 / scale / 200) 13 13; glPopMatrix]).

(** The colour of marker [i]. *)
Definition marker_color (i : nat) : color :=
  nth (i mod length COLORS) COLORS WHITE.

(** The calls that draw the markers among [trails] that [visible] shows. *)
Definition markers_calls (scale : Q) (visible : list bool)
    (trails : list (Deque.t point)) : list call :=
  imap pair trails ≫= fun ip =>
    if nth (fst ip) visible false
    then marker_calls scale (marker_color (fst ip)) (Deque.items (snd ip))
    else [].

(** ** What a list of GL calls draws *)

(** One rendering of the model list: the projection, the viewport and the
    model transform in force when [glCallList] is executed, each matrix as
    the calls that built it up from the identity. *)
Record view := mkView {
  view_projection : list call;
  view_viewport : option (Z * Z * Z * Z);
  view_model : list call
}.

(** The part of the GL state that the views depend on. *)
Record gl := mkGl {
  gl_compiling : bool;
  gl_mode : matrix_mode;
  gl_projection : list call;
  gl_modelview : list call;
  gl_projection_stack : list (list call);
  gl_modelview_stack : list (list call);
  gl_viewport : option (Z * Z * Z * Z)
}.

Definition gl_initial : gl := mkGl false GL_MODELVIEW [] [] [] [] None.

(** The current matrix replaced by [f] of it. *)
Definition gl_on_matrix (f : list call -> list call) (s : gl) : gl :=
  match gl_mode s with
  | GL_PROJECTION =>
      mkGl (gl_compiling s) (gl_mode s) (f (gl_projection s)) (gl_modelview s)
        (gl_projection_stack s) (gl_modelview_stack s) (gl_viewport s)
  | GL_MODELVIEW =>
      mkGl (gl_compiling s) (gl_mode s) (gl_projection s) (f (gl_modelview s))
        (gl_projection_stack s) (gl_modelview_stack s) (gl_viewport s)
  end.

Definition gl_set_compiling (b : bool) (s : gl) : gl :=
  mkGl b (gl_mode s) (gl_projection s) (gl_modelview s)
    (gl_projection_stack s) (gl_modelview_stack s) (gl_viewport s).

(** The state after one call.  Between [glNewList] and [glEndList] the
    calls are compiled into the list and not executed. *)
Definition gl_step (s : gl) (c : call) : gl :=
  if gl_compiling s then
    match c with glEndList => gl_set_compiling false s | _ => s end
  else
    match c with
    | glNewList _ => gl_set_compiling true s
    | glViewport x y w h =>
        mkGl (gl_compiling s) (gl_mode s) (gl_projection s) (gl_modelview s)
          (gl_projection_stack s) (gl_modelview_stack s) (Some (x, y, w, h))
    | glMatrixMode m =>
        mkGl (gl_compiling s) m (gl_projection s) (gl_modelview s)
          (gl_projection_stack s) (gl_modelview_stack s) (gl_viewport s)
    | glLoadIdentity => gl_on_matrix (fun _ => []) s
    | glPushMatrix =>
        match gl_mode s with
        | GL_PROJECTION =>
            mkGl (gl_compiling s) (gl_mode s) (gl_projection s)
              (gl_modelview s) (gl_projection s :: gl_projection_stack s)
              (gl_modelview_stack s) (gl_viewport s)
        | GL_MODELVIEW =>
            mkGl (gl_compiling s) (gl_mode s) (gl_projection s)
              (gl_modelview s) (gl_projection_stack s)
              (gl_modelview s :: gl_modelview_stack s) (gl_viewport s)
        end
    | glPopMatrix =>
        match gl_mode s with
        | GL_PROJECTION =>
            match gl_projection_stack s with
            | m :: st =>
                mkGl (gl_compiling s) (gl_mode s) m (gl_modelview s) st
                  (gl_modelview_stack s) (gl_viewport s)
            | [] => s
            end
        | GL_MODELVIEW =>
            match gl_modelview_stack s with
            | m :: st =>
                mkGl (gl_compiling s) (gl_mode s) (gl_projection s) m
                  (gl_projection_stack s) st (gl_viewport s)
            | [] => s
            end
        end
    | gluPerspective _ _ _ _ | glOrtho _ _ _ _ _ _ | glTranslate _ _ _
    | glTranslated _ | glRotate _ _ _ _ | glScalef _ _ _ =>
        gl_on_matrix (fun m => m ++ [c]) s
    | _ => s
    end.

(** The renderings made by the calls [cs] from the state [s], in order. *)
Fixpoint gl_views (s : gl) (cs : list call) : list view :=
  match cs with
  | [] => []
  | c :: cs' =>
      match c with
      | glCallList _ =>
          if gl_compiling s then gl_views s cs'
          else
            mkView (gl_projection s) (gl_viewport s) (gl_modelview s)
            :: gl_views s cs'
      | _ => gl_views (gl_step s c) cs'
      end
  end.

(** The renderings made by a callback's calls on a fresh GL state. *)
Definition views (cs : list call) : list view := gl_views gl_initial cs.

(** ** Further notions: ticks, tracks, read-only methods *)

(** A method that leaves the object as it found it, whether it returns or
    raises. *)
Definition readonly {A} (m : M A) : Prop := forall v, self (m v) = v.

(** The idle events of a list of pairs of clock readings. *)
Definition idle_events (ticks : list (Q * Q)) : list event :=
  (fun t => Idle (fst t) (snd t)) <$> ticks.

(** Every tick of the list comes later than one period after the time
    recorded by the tick before it ([last] for the first one). *)
Fixpoint overdue (period last : Q) (ticks : list (Q * Q)) : Prop :=
  match ticks with
  | [] => True
  | t :: ticks' => (period < fst t - last)%Q /\ overdue period (snd t) ticks'
  end.

(** The time recorded after the ticks. *)
Definition last_reading (last : Q) (ticks : list (Q * Q)) : Q :=
  fold_left (fun _ t => snd t) ticks last.

(** The positions of marker [i] in the frames that have one, cut to three
    coordinates. *)
Definition track (i : nat) (frames : list frame) : list point :=
  omap (fun f => take 3 <$> fst f !! i) frames.

(** The events that are ticks. *)
Definition is_idle (e : event) : bool :=
  match e with Idle _ _ => true | _ => false end.

(** ** The program *)


Section Program.
Variable exp : Q -> option Q.




End Program.

(** * Properties *)

(** ** The last [n] elements of a list *)

Lemma lastn_length {A} n (l : list A) :
  length (lastn n l) = (length l `min` n)%nat.
Proof. unfold lastn. rewrite length_drop. lia. Qed.

Lemma lastn_all {A} n (l : list A) : (length l <= n)%nat -> lastn n l = l.
Proof.
  intros Hle. unfold lastn.
  replace (length l - n)%nat with 0%nat by lia. reflexivity.
Qed.

Lemma lastn_app_r {A} n (l k : list A) :
  (n <= length k)%nat -> lastn n (l ++ k) = lastn n k.
Proof.
  intros Hle. unfold lastn. rewrite length_app.
  replace (length l + length k - n)%nat
    with (length l + (length k - n))%nat by lia.
  apply drop_app_add.
Qed.

Lemma lastn_lastn_app {A} n m (l k : list A) :
  (n <= m)%nat -> lastn n (lastn m l ++ k) = lastn n (l ++ k).
Proof.
  intros Hnm.
  destruct (Nat.le_gt_cases (length l) m) as [Hle|Hgt].
  - rewrite (lastn_all m l) by exact Hle. reflexivity.
  - unfold lastn at 2.
    rewrite <- (take_drop (length l - m) l) at 3.
    rewrite <- (app_assoc (take _ l)).
    symmetry. apply lastn_app_r.
    rewrite length_app, length_drop. lia.
Qed.

Lemma lastn_min_length {A} n (l : list A) :
  lastn (n `min` length l) l = lastn n l.
Proof. unfold lastn. f_equal. lia. Qed.

(** ** Bounded deques *)

Section DequeFacts.
Context {A : Type}.
Implicit Types (d : Deque.t A) (x : A) (xs : list A).

Lemma make_wf xs n d : Deque.make xs n = inr d -> Deque.wf d.
Proof.
  unfold Deque.make, Deque.wf, Deque.size.
  destruct (_ || _); [discriminate|].
  destruct (Z.ltb_spec n 0); [discriminate|].
  intros [= <-]. simpl. rewrite lastn_length. lia.
Qed.

Lemma make_Some xs n :
  0 <= n <= PY_SSIZE_T_MAX ->
  Deque.make xs n = inr (Deque.mk (lastn (Z.to_nat n) xs) n).
Proof.
  intros [Hn Hmax]. unfold Deque.make.
  destruct (Z.ltb_spec n (- PY_SSIZE_T_MAX - 1));
    [unfold PY_SSIZE_T_MAX in *; lia|].
  destruct (Z.ltb_spec PY_SSIZE_T_MAX n); [lia|]. simpl.
  destruct (Z.ltb_spec n 0); [lia|reflexivity].
Qed.

Lemma make_overflow xs n :
  PY_SSIZE_T_MAX < n -> Deque.make xs n = inl OverflowError.
Proof.
  intros Hn. unfold Deque.make.
  destruct (Z.ltb_spec PY_SSIZE_T_MAX n); [|lia].
  rewrite orb_true_r. reflexivity.
Qed.

Lemma append_items d x :
  Deque.wf d ->
  Deque.items (Deque.append d x)
  = lastn (Z.to_nat (Deque.maxlen d)) (Deque.items d ++ [x]).
Proof.
  intros [Hn Hs]. unfold Deque.append, Deque.size in *. simpl.
  rewrite length_app. simpl.
  destruct (Z.ltb_spec (Deque.maxlen d)
              (Z.of_nat (length (Deque.items d) + 1))) as [Hlt|Hge].
  - unfold lastn. rewrite length_app. simpl.
    replace (length (Deque.items d) + 1 - Z.to_nat (Deque.maxlen d))%nat
      with 1%nat by lia.
    destruct (Deque.items d ++ [x]); reflexivity.
  - rewrite lastn_all; [reflexivity|]. rewrite length_app. simpl. lia.
Qed.

Lemma append_wf d x : Deque.wf d -> Deque.wf (Deque.append d x).
Proof.
  intros Hwf. pose proof (append_items d x Hwf) as Hit.
  destruct Hwf as [Hn Hs]. split; [exact Hn|].
  unfold Deque.size. rewrite Hit, lastn_length. simpl. lia.
Qed.

Lemma extend_maxlen xs d :
  Deque.maxlen (Deque.extend d xs) = Deque.maxlen d.
Proof.
  revert d. induction xs as [|x xs IH]; intros d; [reflexivity|].
  change (Deque.extend d (x :: xs)) with (Deque.extend (Deque.append d x) xs).
  rewrite IH. reflexivity.
Qed.

Lemma extend_wf xs d : Deque.wf d -> Deque.wf (Deque.extend d xs).
Proof.
  revert d. induction xs as [|x xs IH]; intros d Hwf; [exact Hwf|].
  apply IH, append_wf, Hwf.
Qed.

Lemma extend_items xs d :
  Deque.wf d ->
  Deque.items (Deque.extend d xs)
  = lastn (Z.to_nat (Deque.maxlen d)) (Deque.items d ++ xs).
Proof.
  revert d. induction xs as [|x xs IH]; intros d Hwf.
  - simpl. rewrite app_nil_r, lastn_all; [reflexivity|].
    destruct Hwf as [? ?]. unfold Deque.size in *. lia.
  - change (Deque.extend d (x :: xs))
      with (Deque.extend (Deque.append d x) xs).
    rewrite IH by (apply append_wf, Hwf).
    rewrite append_items by exact Hwf. simpl.
    replace (Deque.items d ++ x :: xs) with ((Deque.items d ++ [x]) ++ xs)
      by (rewrite <- app_assoc; reflexivity).
    apply lastn_lastn_app. lia.
Qed.

(** C1: however many points are appended to a trail buffer, its size stays
    within its capacity [maxlen], which does not change, and the buffer
    holds exactly the last [size] points of everything it was given (what it
    held before followed by the appended points), in insertion order; that
    size is the smaller of the capacity and the number of points given, so
    the oldest points are the ones that were dropped. *)
Theorem trail_append_bounded_fifo d xs :
  Deque.wf d ->
  let d' := Deque.extend d xs in
  Deque.maxlen d' = Deque.maxlen d /\
  Z.of_nat (Deque.size d') <= Deque.maxlen d' /\
  Deque.items d' = lastn (Deque.size d') (Deque.items d ++ xs) /\
  Deque.size d'
  = (Z.to_nat (Deque.maxlen d) `min` (Deque.size d + length xs))%nat.
Proof.
  intros Hwf d'.
  pose proof (extend_wf xs d Hwf) as [_ Hsz].
  pose proof (extend_items xs d Hwf) as Hit.
  assert (Hsize : Deque.size d'
            = (Z.to_nat (Deque.maxlen d) `min` (Deque.size d + length xs))%nat).
  { unfold Deque.size, d'. rewrite Hit, lastn_length, length_app. lia. }
  split; [apply extend_maxlen|].
  split; [exact Hsz|].
  split; [|exact Hsize].
  fold d' in Hit. rewrite Hit, Hsize.
  rewrite <- (lastn_min_length (Z.to_nat (Deque.maxlen d))).
  f_equal. rewrite length_app. reflexivity.
Qed.

End DequeFacts.

Lemma trail_append_bounded_fifo_witness :
  let d := Deque.mk [[1; 2; 3]; [4; 5; 6]]%Q 2 in
  let xs := [[7; 8; 9]; [10; 11; 12]; [13; 14; 15]]%Q in
  Deque.wf d /\
  Deque.items (Deque.extend d xs)
  = lastn (Deque.size (Deque.extend d xs)) (Deque.items d ++ xs).
Proof.
  intros d xs.
  assert (Hwf : Deque.wf d) by (unfold Deque.wf, Deque.size, d; simpl; lia).
  split; [exact Hwf|].
  apply (trail_append_bounded_fifo d xs Hwf).
Defined.

(** ** Running the methods *)

Ltac unfold_M :=
  unfold mbind, M_bind, mret, M_ret, modify, get, emit, raise in *.

Lemma fdiv_ok (x y : Q) (v : Viewer) :
  ~ (y == 0)%Q -> fdiv x y v = mkOutcome v [] (inr (x / y)%Q).
Proof.
  intros Hy. unfold fdiv.
  destruct (Qeq_bool y 0) eqn:E; [|reflexivity].
  apply Qeq_bool_iff in E. contradiction.
Qed.

Lemma fdiv_zero (x y : Q) (v : Viewer) :
  (y == 0)%Q -> fdiv x y v = mkOutcome v [] (inl ZeroDivisionError).
Proof.
  intros Hy. unfold fdiv.
  apply Qeq_bool_iff in Hy. rewrite Hy. reflexivity.
Qed.

Lemma Qgt_bool_true (x y : Q) : Qgt_bool x y = true <-> (y < x)%Q.
Proof.
  unfold Qgt_bool. rewrite negb_true_iff.
  destruct (Qle_bool x y) eqn:E.
  - apply Qle_bool_iff in E. split; [discriminate|].
    intros Hlt. exfalso. exact (Qlt_not_le _ _ Hlt E).
  - split; [intros _|reflexivity].
    apply Qnot_le_lt. intros Hle. apply Qle_bool_iff in Hle. congruence.
Qed.

Lemma Qgt_bool_false (x y : Q) : Qgt_bool x y = false <-> (x <= y)%Q.
Proof.
  unfold Qgt_bool. rewrite negb_false_iff. apply Qle_bool_iff.
Qed.

(** ** The idle callback *)

Lemma handle_idle_paused now now' v :
  paused v = true -> ~ (_d_rho v == 0)%Q ->
  handle_idle now now' v = mkOutcome (integrated v) [] (inr tt).
Proof.
  intros Hp Hd. unfold handle_idle. unfold_M. simpl.
  rewrite fdiv_ok by exact Hd. simpl. rewrite Hp. reflexivity.
Qed.

Lemma handle_idle_integrates now now' v :
  ~ (_d_rho v == 0)%Q ->
  let v' := self (handle_idle now now' v) in
  theta v' = (theta v + _d_theta v)%Q /\
  phi v' = (phi v + _d_phi v)%Q /\
  rho v' = (rho v / _d_rho v)%Q.
Proof.
  intros Hd. unfold handle_idle. unfold_M. simpl.
  rewrite fdiv_ok by exact Hd. simpl.
  destruct (paused v); [simpl; auto|].
  unfold fdiv. destruct (Qeq_bool (_frame_rate v) 0); [simpl; auto|].
  simpl. destruct (Qgt_bool _ _); simpl; [|auto].
  unfold next_frame. unfold_M. simpl.
  destruct (_frames v); simpl; auto.
Qed.

Lemma handle_idle_early now now' v :
  paused v = false -> ~ (_d_rho v == 0)%Q -> ~ (_frame_rate v == 0)%Q ->
  (now - _last_time v <= 1 / _frame_rate v)%Q ->
  handle_idle now now' v
  = mkOutcome (integrated v)
      [time_sleep (1 / _frame_rate v - (now - _last_time v)); glutPostRedisplay]
      (inr tt).
Proof.
  intros Hp Hd Hf He. unfold handle_idle. unfold_M. simpl.
  rewrite fdiv_ok by exact Hd. simpl. rewrite Hp.
  rewrite fdiv_ok by exact Hf. simpl.
  apply Qgt_bool_false in He. rewrite He. reflexivity.
Qed.

Lemma handle_idle_due now now' v f rest :
  paused v = false -> ~ (_d_rho v == 0)%Q -> ~ (_frame_rate v == 0)%Q ->
  (1 / _frame_rate v < now - _last_time v)%Q ->
  _frames v = f :: rest ->
  handle_idle now now' v
  = mkOutcome
      (set_last_time now'
         (set_trails (append_points (_trails v) (fst f))
            (set_frames rest (integrated v))))
      [glutPostRedisplay] (inr tt).
Proof.
  intros Hp Hd Hf He Hfr. unfold handle_idle. unfold_M. simpl.
  rewrite fdiv_ok by exact Hd. simpl. rewrite Hp.
  rewrite fdiv_ok by exact Hf. simpl.
  apply Qgt_bool_true in He. rewrite He.
  unfold next_frame. unfold_M. simpl. rewrite Hfr. reflexivity.
Qed.

Lemma handle_idle_exhausted now now' v :
  paused v = false -> ~ (_d_rho v == 0)%Q -> ~ (_frame_rate v == 0)%Q ->
  (1 / _frame_rate v < now - _last_time v)%Q ->
  _frames v = [] ->
  handle_idle now now' v = mkOutcome (integrated v) [] (inl StopIteration).
Proof.
  intros Hp Hd Hf He Hfr. unfold handle_idle. unfold_M. simpl.
  rewrite fdiv_ok by exact Hd. simpl. rewrite Hp.
  rewrite fdiv_ok by exact Hf. simpl.
  apply Qgt_bool_true in He. rewrite He.
  unfold next_frame. unfold_M. simpl. rewrite Hfr. reflexivity.
Qed.

(** A frame rate of zero is first met, as a division by zero, by the first
    tick that is not paused. *)
Lemma handle_idle_zero_rate now now' v :
  paused v = false -> ~ (_d_rho v == 0)%Q -> (_frame_rate v == 0)%Q ->
  handle_idle now now' v = mkOutcome (integrated v) [] (inl ZeroDivisionError).
Proof.
  intros Hp Hd Hf. unfold handle_idle. unfold_M. simpl.
  rewrite fdiv_ok by exact Hd. simpl. rewrite Hp.
  rewrite fdiv_zero by exact Hf. reflexivity.
Qed.

(** C2, as the code has it: on a tick that is not paused, with
    [elapsed = now - _last_time] and [period = 1 / _frame_rate], a frame is
    read exactly when [elapsed] is strictly greater than [period]: then one
    frame is taken from the iterator, its points are appended to the
    trails, [_last_time] becomes the second reading [now'] of the clock,
    taken after the appends, and nothing is slept (when the iterator is
    exhausted the tick raises [StopIteration] instead and trails and
    [_last_time] stay).  When [elapsed <= period], equality included, no
    frame is read and the tick sleeps for [period - elapsed]. *)
Theorem tick_reads_frame_when_overdue now now' v :
  paused v = false -> ~ (_d_rho v == 0)%Q -> ~ (_frame_rate v == 0)%Q ->
  let elapsed := (now - _last_time v)%Q in
  let period := (1 / _frame_rate v)%Q in
  let o := handle_idle now now' v in
  ((period < elapsed)%Q ->
   match _frames v with
   | f :: rest =>
       result o = inr tt /\ _frames (self o) = rest /\
       _trails (self o) = append_points (_trails v) (fst f) /\
       _last_time (self o) = now' /\ sleeps (calls o) = []
   | [] =>
       result o = inl StopIteration /\ _trails (self o) = _trails v /\
       _last_time (self o) = _last_time v /\ sleeps (calls o) = []
   end) /\
  ((elapsed <= period)%Q ->
   result o = inr tt /\ _frames (self o) = _frames v /\
   _trails (self o) = _trails v /\ _last_time (self o) = _last_time v /\
   sleeps (calls o) = [(period - elapsed)%Q]).
Proof.
  intros Hp Hd Hf elapsed period o. split.
  - intros He. destruct (_frames v) as [|f rest] eqn:Hfr.
    + unfold o. rewrite handle_idle_exhausted by assumption. simpl. auto.
    + unfold o. rewrite (handle_idle_due now now' v f rest) by assumption.
      simpl. auto.
  - intros He. unfold o. rewrite handle_idle_early by assumption.
    simpl. auto.
Qed.

(** C8: a tick taken while paused returns normally having made no call to
    the outside (so it neither sleeps nor asks for a redisplay), reads no
    frame and leaves trails and [_last_time] alone, while [theta], [phi] and
    [rho] are updated by [_d_theta], [_d_phi] and [_d_rho]; a tick of the
    same object taken unpaused leaves the very same [theta], [phi] and
    [rho]. *)
Theorem paused_tick_only_integrates now now' v :
  paused v = true -> ~ (_d_rho v == 0)%Q ->
  let o := handle_idle now now' v in
  result o = inr tt /\ calls o = [] /\
  _frames (self o) = _frames v /\ _trails (self o) = _trails v /\
  _last_time (self o) = _last_time v /\
  theta (self o) = (theta v + _d_theta v)%Q /\
  phi (self o) = (phi v + _d_phi v)%Q /\
  rho (self o) = (rho v / _d_rho v)%Q /\
  forall t t',
    let u := self (handle_idle t t' (set_paused false v)) in
    theta u = theta (self o) /\ phi u = phi (self o) /\ rho u = rho (self o).
Proof.
  intros Hp Hd o. unfold o. rewrite handle_idle_paused by assumption.
  simpl. repeat (split; [reflexivity|]).
  intros t t'.
  exact (handle_idle_integrates t t' (set_paused false v) Hd).
Qed.

Lemma tick_reads_frame_when_overdue_witness :
  let v := sample_viewer 2 in
  paused v = false /\ ~ (_d_rho v == 0)%Q /\ ~ (_frame_rate v == 0)%Q /\
  (1 / _frame_rate v < 1 - _last_time v)%Q /\
  _frames (self (handle_idle 1 3 v)) = tail (_frames v) /\
  _last_time (self (handle_idle 1 3 v)) = 3%Q.
Proof.
  intros v.
  assert (Hp : paused v = false) by reflexivity.
  assert (Hd : ~ (_d_rho v == 0)%Q) by (intros H; discriminate H).
  assert (Hf : ~ (_frame_rate v == 0)%Q) by (intros H; discriminate H).
  assert (He : (1 / _frame_rate v < 1 - _last_time v)%Q) by reflexivity.
  repeat (split; [assumption|]).
  destruct (tick_reads_frame_when_overdue 1 3 v Hp Hd Hf) as [Hdue _].
  apply Hdue in He. simpl in He. tauto.
Defined.

(** C2 as stated fails on the code in two places.  At 2 frames per second
    with [_last_time = 0], the tick at [now = 1/2] has [elapsed] equal to the
    period, yet it reads no frame and sleeps; and the tick at [now = 1] that
    does read a frame, its second clock reading being [3], sets [_last_time]
    to [3], not to the [now] that [elapsed] was computed from. *)
Lemma tick_at_exact_period_sleeps :
  let v := sample_viewer 2 in
  let o := handle_idle (1 # 2) 1 v in
  let o' := handle_idle 1 3 v in
  paused v = false /\
  (1 / _frame_rate v <= (1 # 2) - _last_time v)%Q /\
  result o = inr tt /\ _frames (self o) = _frames v /\ _frames v <> [] /\
  _trails (self o) = _trails v /\ length (sleeps (calls o)) = 1%nat /\
  _frames (self o') = tail (_frames v) /\
  _last_time (self o') = 3%Q /\ ~ (3 == 1)%Q.
Proof.
  vm_compute. repeat split; try discriminate.
Qed.

Lemma paused_tick_only_integrates_witness :
  let v := set_d_phi (-1 # 2) (set_paused true (sample_viewer 30)) in
  paused v = true /\ ~ (_d_rho v == 0)%Q /\
  calls (handle_idle 5 6 v) = [] /\
  phi (self (handle_idle 5 6 v)) = (300 + (-1 # 2))%Q.
Proof.
  intros v.
  assert (Hp : paused v = true) by reflexivity.
  assert (Hd : ~ (_d_rho v == 0)%Q) by (intros H; discriminate H).
  repeat (split; [assumption|]).
  pose proof (paused_tick_only_integrates 5 6 v Hp Hd) as H.
  simpl in H. split; [apply H|]. apply H.
Defined.

(** ** Construction *)

Lemma rebuild_Some n its :
  0 <= n <= PY_SSIZE_T_MAX ->
  rebuild n its = inr ((fun t => Deque.mk (lastn (Z.to_nat n) t) n) <$> its).
Proof.
  intros Hn. induction its as [|t its IH]; [reflexivity|].
  simpl. rewrite make_Some by exact Hn. rewrite IH. reflexivity.
Qed.

Lemma rebuild_overflow n t its :
  PY_SSIZE_T_MAX < n -> rebuild n (t :: its) = inl OverflowError.
Proof.
  intros Hn. simpl. rewrite make_overflow by exact Hn. reflexivity.
Qed.

Lemma init_returns r model_list :
  __init__ r model_list
  = inr (mkViewer (read_frames r) (frame_rate r) 1
           (replicate (xrange_len (num_points r)) true)
           (replicate (xrange_len (num_points r)) (Deque.mk [] 1))
           350 300 1 false 0 None 800 600 0 0 1 model_list).
Proof.
  unfold __init__. rewrite rebuild_Some by (unfold PY_SSIZE_T_MAX; lia).
  rewrite fmap_replicate. reflexivity.
Qed.

Example init_sample rate :
  __init__ (sample_reader rate) 1 = inr (sample_viewer rate).
Proof. reflexivity. Qed.

(** C5, as the code has it: the constructor does not look at the frame
    rate.  For every reader, whatever frame rate it reports (positive, zero
    or negative), construction returns a viewer that stores that rate, and
    raises nothing. *)
Theorem init_accepts_any_frame_rate r model_list :
  exists v,
    __init__ r model_list = inr v /\ _frame_rate v = frame_rate r /\
    visible v = replicate (xrange_len (num_points r)) true.
Proof.
  rewrite init_returns. eexists. split; [reflexivity|]. simpl. auto.
Qed.

(** C5 as stated fails on the code: with a frame rate of zero, and with a
    negative one, construction returns a viewer. *)
Lemma init_nonpositive_frame_rate_succeeds :
  (frame_rate (sample_reader 0) <= 0)%Q /\
  __init__ (sample_reader 0) 1 = inr (sample_viewer 0) /\
  (frame_rate (sample_reader (-30)) <= 0)%Q /\
  __init__ (sample_reader (-30)) 1 = inr (sample_viewer (-30)).
Proof.
  repeat split; try reflexivity; intros H; discriminate H.
Qed.

(** ** The keyboard callback *)

Lemma digit_cases char :
  in_str char "0123456789"%string = true ->
  Ascii.eqb char "q" = false /\ 0 <= int_of_digit char <= 9.
Proof.
  destruct char as [[] [] [] [] [] [] [] []]; try discriminate;
    intros _; (split; [reflexivity|vm_compute; split; discriminate]).
Qed.

Lemma plus_cases char :
  in_str char "+="%string = true -> char = "+"%char \/ char = "="%char.
Proof.
  destruct char as [[] [] [] [] [] [] [] []]; try discriminate; auto.
Qed.

Lemma minus_cases char :
  in_str char "_-"%string = true -> char = "_"%char \/ char = "-"%char.
Proof.
  destruct char as [[] [] [] [] [] [] [] []]; try discriminate; auto.
Qed.

Lemma norm_index_ge n i : Z.of_nat n <= i -> norm_index n i = None.
Proof.
  intros Hi. unfold norm_index.
  destruct (Z.ltb_spec i 0); [lia|].
  destruct (Z.leb_spec 0 i); [|lia].
  destruct (Z.ltb_spec i (Z.of_nat n)); [lia|reflexivity].
Qed.

Lemma norm_index_lt n i :
  0 <= i < Z.of_nat n -> norm_index n i = Some (Z.to_nat i).
Proof.
  intros Hi. unfold norm_index.
  destruct (Z.ltb_spec i 0); [lia|].
  destruct (Z.leb_spec 0 i); [|lia].
  destruct (Z.ltb_spec i (Z.of_nat n)); [reflexivity|lia].
Qed.

Lemma handle_keypress_digit char x y v :
  in_str char "0123456789"%string = true ->
  handle_keypress char x y v
  = match visible v !! Z.to_nat (int_of_digit char) with
    | Some b =>
        mkOutcome
          (set_visible
             (<[Z.to_nat (int_of_digit char) := xorb b true]> (visible v)) v)
          [] (inr tt)
    | None => mkOutcome v [] (inl IndexError)
    end.
Proof.
  intros Hd. destruct (digit_cases char Hd) as [Hq Hr].
  unfold handle_keypress. rewrite Hq, Hd.
  unfold getitem, setitem. unfold_M.
  destruct (Z.lt_ge_cases (int_of_digit char) (Z.of_nat (length (visible v))))
    as [Hlt|Hge].
  - rewrite norm_index_lt by lia. simpl.
    destruct (visible v !! Z.to_nat (int_of_digit char)) eqn:E; reflexivity.
  - rewrite norm_index_ge by lia. simpl.
    rewrite lookup_ge_None_2 by lia. reflexivity.
Qed.

(** C4, as the code has it: a digit key whose number is not the index of a
    marker is not ignored in silence.  The callback raises [IndexError]; it
    has changed nothing in the object by then (no visibility flag, nothing
    else) and has made no call to the outside. *)
Theorem toggle_out_of_range_raises char x y v :
  in_str char "0123456789"%string = true ->
  Z.of_nat (length (visible v)) <= int_of_digit char ->
  handle_keypress char x y v = mkOutcome v [] (inl IndexError).
Proof.
  intros Hd Hge. rewrite handle_keypress_digit by exact Hd.
  rewrite lookup_ge_None_2 by lia. reflexivity.
Qed.

Lemma toggle_out_of_range_raises_witness :
  in_str "5" "0123456789"%string = true /\
  Z.of_nat (length (visible (sample_viewer 30))) <= int_of_digit "5" /\
  handle_keypress "5" 0 0 (sample_viewer 30)
  = mkOutcome (sample_viewer 30) [] (inl IndexError).
Proof.
  assert (Hd : in_str "5" "0123456789"%string = true) by reflexivity.
  assert (Hge : Z.of_nat (length (visible (sample_viewer 30)))
                <= int_of_digit "5") by (vm_compute; discriminate).
  repeat (split; [assumption|]).
  apply (toggle_out_of_range_raises "5" 0 0 (sample_viewer 30) Hd Hge).
Defined.

(** C4 as stated fails on the code: with two markers, the key [5] raises
    [IndexError] instead of returning. *)
Lemma toggle_out_of_range_not_silent :
  (2 <= int_of_digit "5") /\
  length (visible (sample_viewer 30)) = 2%nat /\
  result (handle_keypress "5" 0 0 (sample_viewer 30)) = inl IndexError /\
  result (handle_keypress "5" 0 0 (sample_viewer 30)) <> inr tt.
Proof.
  vm_compute. repeat split; discriminate.
Qed.

(** ** Changing the capacity of the trails *)

(** A trail rebuilt with capacity [n]. *)
Lemma reset_trails_ok v :
  0 <= maxlen v <= PY_SSIZE_T_MAX ->
  _reset_trails v
  = mkOutcome
      (set_trails
         ((fun d => Deque.mk (lastn (Z.to_nat (maxlen v)) (Deque.items d))
                      (maxlen v)) <$> _trails v) v)
      [] (inr tt).
Proof.
  intros Hn. unfold _reset_trails. unfold_M. simpl.
  rewrite rebuild_Some by exact Hn.
  rewrite <- list_fmap_compose. reflexivity.
Qed.

(** Above the largest capacity a deque takes, the first trail cannot be
    rebuilt: the viewer is left as it was. *)
Lemma reset_trails_overflow v :
  PY_SSIZE_T_MAX < maxlen v -> _trails v <> [] ->
  _reset_trails v = mkOutcome v [] (inl OverflowError).
Proof.
  intros Hn Ht. unfold _reset_trails. unfold_M. simpl.
  destruct (_trails v) as [|d ds]; [contradiction|]. simpl.
  rewrite make_overflow by exact Hn. reflexivity.
Qed.

Lemma handle_keypress_plus char x y v :
  in_str char "+="%string = true ->
  handle_keypress char x y v
  = map_self id (_reset_trails (set_maxlen (maxlen v * 2) v)).
Proof.
  intros [-> | ->]%plus_cases; unfold handle_keypress, map_self; unfold_M;
    simpl; destruct (_reset_trails _); reflexivity.
Qed.

Lemma handle_keypress_minus char x y v :
  in_str char "_-"%string = true ->
  handle_keypress char x y v
  = map_self id (_reset_trails (set_maxlen (Z.max 1 (maxlen v / 2)) v)).
Proof.
  intros [-> | ->]%minus_cases; unfold handle_keypress, map_self; unfold_M;
    simpl; destruct (_reset_trails _); reflexivity.
Qed.





(** ** The draw callback *)

Lemma foreach_calls {A} (l : list A) (body : A -> M unit)
    (f : A -> list call) v :
  (forall x, x ∈ l -> body x v = mkOutcome v (f x) (inr tt)) ->
  foreach l body v = mkOutcome v (l ≫= f) (inr tt).
Proof.
  induction l as [|x l IH]; intros Hbody; [reflexivity|].
  simpl. unfold_M. rewrite Hbody by apply list_elem_of_here. simpl.
  rewrite IH by (intros y Hy; apply Hbody, list_elem_of_further, Hy).
  reflexivity.
Qed.

Lemma getitem_lookup {A} (l : list A) (i : nat) (a : A) v :
  l !! i = Some a -> getitem l (Z.of_nat i) v = mkOutcome v [] (inr a).
Proof.
  intros Hl. unfold getitem.
  rewrite norm_index_lt by (apply lookup_lt_Some in Hl; lia).
  simpl. rewrite Nat2Z.id, Hl. reflexivity.
Qed.

Lemma getitem_color (i : nat) v :
  getitem COLORS (Z.of_nat i mod Z.of_nat (length COLORS)) v
  = mkOutcome v [] (inr (marker_color i)).
Proof.
  rewrite <- Nat2Z.inj_mod. apply getitem_lookup.
  unfold marker_color.
  pose proof (Nat.mod_upper_bound i (length COLORS)) as Hlt.
  destruct (i mod length COLORS)%nat as [|[|[|[|[|[|n]]]]]];
    try reflexivity.
  simpl in Hlt. lia.
Qed.

Lemma render_marker_points_calls label c points v :
  ~ (rho v == 0)%Q ->
  render_marker_points label c points v
  = mkOutcome v (marker_calls (rho v) c points) (inr tt).
Proof.
  intros Hrho. unfold render_marker_points. unfold_M. simpl.
  rewrite (foreach_calls points _ (fun p =>
    [glPushMatrix; glTranslated p;
     glutSolidSphere (1 / rho v / 200) 13 13; glPopMatrix])).
  - reflexivity.
  - intros p _. simpl. rewrite fdiv_ok by exact Hrho. reflexivity.
Qed.

(** What [render_model] compiles into the model list: the lights and the
    axes, then the markers that are visible. *)
Lemma render_model_calls v :
  ~ (rho v == 0)%Q -> (length (_trails v) <= length (visible v))%nat ->
  render_model v
  = mkOutcome v
      (glNewList (_model_list v)
       :: lights_and_axes
       ++ markers_calls (rho v) (visible v) (_trails v) ++ [glEndList])
      (inr tt).
Proof.
  intros Hrho Hlen. unfold render_model, mbind, M_bind, get. simpl.
  rewrite (foreach_calls _ _ (fun ip =>
    if nth (fst ip) (visible v) false
    then marker_calls (rho v) (marker_color (fst ip)) (Deque.items (snd ip))
    else [])).
  - reflexivity.
  - intros [j d] Hin. simpl.
    apply list_elem_of_lookup in Hin as [k Hk].
    rewrite list_lookup_imap in Hk.
    destruct (_trails v !! k) as [d'|] eqn:Hd; [|discriminate].
    simpl in Hk. injection Hk as <- <-.
    apply lookup_lt_Some in Hd.
    destruct (lookup_lt_is_Some_2 (visible v) k) as [b Hb]; [lia|].
    rewrite (getitem_lookup _ _ _ _ Hb).
    rewrite (nth_lookup_Some _ _ false _ Hb).
    destruct b; simpl; [|reflexivity].
    change (Z.of_nat 6) with (Z.of_nat (length COLORS)).
    rewrite getitem_color.
    rewrite render_marker_points_calls by exact Hrho.
    reflexivity.
Qed.

Lemma viewports_app cs cs' :
  viewports (cs ++ cs') = viewports cs ++ viewports cs'.
Proof. apply omap_app. Qed.

Lemma viewports_bind {A} (f : A -> list call) (l : list A) :
  (forall x, viewports (f x) = []) -> viewports (l ≫= f) = [].
Proof.
  intros Hf. induction l as [|x l IH]; [reflexivity|].
  rewrite bind_cons, viewports_app, Hf, IH. reflexivity.
Qed.

Lemma viewports_marker_calls scale c points :
  viewports (marker_calls scale c points) = [].
Proof.
  unfold marker_calls.
  change (viewports (?c :: ?l)) with (viewports l).
  apply viewports_bind. reflexivity.
Qed.

Lemma viewports_markers_calls scale vis trails :
  viewports (markers_calls scale vis trails) = [].
Proof.
  apply viewports_bind. intros ip.
  destruct (nth (fst ip) vis false);
    [apply viewports_marker_calls|reflexivity].
Qed.

Lemma inject_Z_nonzero (z : Z) : z <> 0 -> ~ (inject_Z z == 0)%Q.
Proof. intros Hz H. unfold Qeq in H. simpl in H. lia. Qed.

(** The whole of [handle_draw] on an object that can be drawn: the object
    is left as it was, and the viewports set are these four. *)
Lemma handle_draw_viewports v :
  _height v <> 0 -> ~ (rho v == 0)%Q ->
  (length (_trails v) <= length (visible v))%nat ->
  let w := Z.quot (2 * _width v) 3 in
  let h := Z.quot (_height v) 3 in
  let o := handle_draw v in
  result o = inr tt /\ self o = v /\
  viewports (calls o)
  = [(0, 0, w, _height v); (w, 0, w / 2, h); (w, h, w / 2, h);
     (w, 2 * h, w / 2, h)].
Proof.
  intros Hh Hrho Hlen w h o. unfold o, handle_draw. unfold_M. simpl.
  rewrite render_model_calls by assumption. simpl.
  rewrite fdiv_ok by (apply inject_Z_nonzero, Hh). simpl.
  rewrite fdiv_ok by exact Hrho. simpl.
  split; [reflexivity|]. split; [reflexivity|].
  unfold viewports. simpl. rewrite !omap_app. simpl.
  fold (viewports (markers_calls (rho v) (visible v) (_trails v))).
  rewrite viewports_markers_calls. reflexivity.
Qed.

(** *** The views that are rendered *)

Lemma gl_views_compiled s cs rest :
  gl_compiling s = true -> Forall (fun c => c <> glEndList) cs ->
  gl_views s (cs ++ glEndList :: rest)
  = gl_views (gl_set_compiling false s) rest.
Proof.
  intros Hs Hcs. induction Hcs as [|c cs Hc Hcs IH]; simpl.
  - unfold gl_step. rewrite Hs. reflexivity.
  - rewrite Hs. unfold gl_step. rewrite Hs.
    destruct c; try exact IH. contradiction.
Qed.

Lemma no_end_bind {A} (f : A -> list call) (l : list A) :
  (forall x, Forall (fun c => c <> glEndList) (f x)) ->
  Forall (fun c => c <> glEndList) (l ≫= f).
Proof.
  intros Hf. induction l as [|x l IH]; [constructor|].
  rewrite bind_cons. apply Forall_app. split; [apply Hf|exact IH].
Qed.

Lemma no_end_markers_calls scale vis trails :
  Forall (fun c => c <> glEndList) (markers_calls scale vis trails).
Proof.
  apply no_end_bind. intros ip.
  destruct (nth (fst ip) vis false); [|constructor].
  unfold marker_calls. constructor; [discriminate|].
  apply no_end_bind. intros p. repeat (constructor; [discriminate|]).
  constructor.
Qed.

Lemma no_end_lights_and_axes :
  Forall (fun c => c <> glEndList) lights_and_axes.
Proof.
  unfold lights_and_axes. repeat (constructor; [discriminate|]). constructor.
Qed.

(** The four renderings of a drawing: the projection, the viewport and the
    model transform of each. *)
Lemma handle_draw_views v :
  _height v <> 0 -> ~ (rho v == 0)%Q ->
  (length (_trails v) <= length (visible v))%nat ->
  let w := Z.quot (2 * _width v) 3 in
  let h := Z.quot (_height v) 3 in
  let z := (1 / rho v / 2)%Q in
  views (calls (handle_draw v))
  = [ mkView
        [gluPerspective 45 (inject_Z w / inject_Z (_height v)) (1 # 100) 10]
        (Some (0, 0, w, _height v))
        [glTranslate 0 0 (-1); glRotate (phi v) 1 0 0;
         glRotate (theta v) 0 0 1; glScalef (rho v) (rho v) (rho v)];
      mkView [glOrtho (- z) z (- z) z (- z) z] (Some (w, 0, w / 2, h))
        [glTranslate 0 0 (-1); glScalef 2 2 2];
      mkView [glOrtho (- z) z (- z) z (- z) z] (Some (w, h, w / 2, h))
        [glRotate (-90) 1 0 0; glTranslate 0 0 (-1); glScalef 2 2 2];
      mkView [glOrtho (- z) z (- z) z (- z) z] (Some (w, 2 * h, w / 2, h))
        [glRotate (-90) 1 0 0; glRotate (-90) 0 0 1; glTranslate 0 0 (-1);
         glScalef 2 2 2] ].
Proof.
  intros Hh Hrho Hlen w h z.
  assert (Hcalls : exists tail,
    calls (handle_draw v)
    = [glClearColor (9 # 10) (9 # 10) (9 # 10) 1; glClearDepth 1; glClear]
      ++ (glNewList (_model_list v)
          :: (lights_and_axes
              ++ markers_calls (rho v) (visible v) (_trails v))
          ++ glEndList :: tail) /\
    gl_views gl_initial tail
    = [ mkView
          [gluPerspective 45 (inject_Z w / inject_Z (_height v)) (1 # 100) 10]
          (Some (0, 0, w, _height v))
          [glTranslate 0 0 (-1); glRotate (phi v) 1 0 0;
           glRotate (theta v) 0 0 1; glScalef (rho v) (rho v) (rho v)];
        mkView [glOrtho (- z) z (- z) z (- z) z] (Some (w, 0, w / 2, h))
          [glTranslate 0 0 (-1); glScalef 2 2 2];
        mkView [glOrtho (- z) z (- z) z (- z) z] (Some (w, h, w / 2, h))
          [glRotate (-90) 1 0 0; glTranslate 0 0 (-1); glScalef 2 2 2];
        mkView [glOrtho (- z) z (- z) z (- z) z] (Some (w, 2 * h, w / 2, h))
          [glRotate (-90) 1 0 0; glRotate (-90) 0 0 1; glTranslate 0 0 (-1);
           glScalef 2 2 2] ]).
  { unfold handle_draw. unfold_M. simpl.
    rewrite render_model_calls by assumption. simpl.
    rewrite fdiv_ok by (apply inject_Z_nonzero, Hh). simpl.
    rewrite fdiv_ok by exact Hrho. simpl.
    eexists. split.
    - rewrite <- !app_assoc. simpl. reflexivity.
    - reflexivity. }
  destruct Hcalls as (tail & -> & Htail).
  unfold views.
  change (gl_views gl_initial
            ([glClearColor (9 # 10) (9 # 10) (9 # 10) 1; glClearDepth 1;
              glClear]
             ++ glNewList (_model_list v)
                :: (lights_and_axes
                    ++ markers_calls (rho v) (visible v) (_trails v))
                   ++ glEndList :: tail))
    with (gl_views (gl_set_compiling true gl_initial)
            ((lights_and_axes
              ++ markers_calls (rho v) (visible v) (_trails v))
             ++ glEndList :: tail)).
  rewrite gl_views_compiled;
    [exact Htail|reflexivity|].
  apply Forall_app. split;
    [apply no_end_lights_and_axes|apply no_end_markers_calls].
Qed.

(** C6, as the code has it: on a drawing surface of width [W >= 0] and
    height [H > 0], the draw callback renders the model list four times.
    The first rendering is a perspective view (field of view 45, aspect
    [leftWidth / H], near 0.01, far 10) in the viewport
    [(0, 0, leftWidth, H)] with [leftWidth = floor(2W/3)]; the other three
    are orthographic views with bounds [-z .. z] on all axes,
    [z = 1 / rho / 2], in viewports of height [floor(H/3)] at
    [x = leftWidth] and [y = 0], [floor(H/3)], [2 floor(H/3)], each of width
    [floor(leftWidth / 2)] (which is not always [W - leftWidth]).  For a
    900 x 600 surface the viewports are (0,0,600,600), (600,0,300,200),
    (600,200,300,200) and (600,400,300,200). *)
Theorem draw_viewport_partition v :
  0 <= _width v -> 0 < _height v -> ~ (rho v == 0)%Q ->
  (length (_trails v) <= length (visible v))%nat ->
  let W := _width v in
  let H := _height v in
  let leftWidth := 2 * W / 3 in
  let third := H / 3 in
  let o := handle_draw v in
  result o = inr tt /\
  viewports (calls o)
  = [(0, 0, leftWidth, H);
     (leftWidth, 0, leftWidth / 2, third);
     (leftWidth, third, leftWidth / 2, third);
     (leftWidth, 2 * third, leftWidth / 2, third)] /\
  (W = 900 -> H = 600 ->
   viewports (calls o)
   = [(0, 0, 600, 600); (600, 0, 300, 200); (600, 200, 300, 200);
      (600, 400, 300, 200)]) /\
  (let z := (1 / rho v / 2)%Q in
   (fun w => (view_projection w, view_viewport w)) <$> views (calls o)
   = [ ([gluPerspective 45 (inject_Z leftWidth / inject_Z H) (1 # 100) 10],
        Some (0, 0, leftWidth, H));
       ([glOrtho (- z) z (- z) z (- z) z],
        Some (leftWidth, 0, leftWidth / 2, third));
       ([glOrtho (- z) z (- z) z (- z) z],
        Some (leftWidth, third, leftWidth / 2, third));
       ([glOrtho (- z) z (- z) z (- z) z],
        Some (leftWidth, 2 * third, leftWidth / 2, third)) ]).
Proof.
  intros HW HH Hrho Hlen W H leftWidth third o.
  destruct (handle_draw_viewports v ltac:(lia) Hrho Hlen) as (Hres & _ & Hvp).
  pose proof (handle_draw_views v ltac:(lia) Hrho Hlen) as Hviews.
  fold o in Hres, Hvp, Hviews. cbv zeta in Hviews.
  rewrite !Z.quot_div_nonneg in Hvp, Hviews by lia.
  split; [exact Hres|]. split; [exact Hvp|]. split.
  - intros HW9 HH6. rewrite Hvp. unfold leftWidth, third, W, H in *.
    rewrite HW9, HH6. reflexivity.
  - cbv zeta. rewrite Hviews. reflexivity.
Qed.

Lemma draw_viewport_partition_witness :
  let v := set_width 900 (sample_viewer 30) in
  0 <= _width v /\ 0 < _height v /\ ~ (rho v == 0)%Q /\
  (length (_trails v) <= length (visible v))%nat /\
  viewports (calls (handle_draw v))
  = [(0, 0, 600, 600); (600, 0, 300, 200); (600, 200, 300, 200);
     (600, 400, 300, 200)] /\
  (fun w => (view_projection w, view_viewport w))
    <$> views (calls (handle_draw v))
  = [ ([gluPerspective 45 (inject_Z 600 / inject_Z 600) (1 # 100) 10],
       Some (0, 0, 600, 600));
      ([glOrtho (- (1 # 2)) (1 # 2) (- (1 # 2)) (1 # 2) (- (1 # 2)) (1 # 2)],
       Some (600, 0, 300, 200));
      ([glOrtho (- (1 # 2)) (1 # 2) (- (1 # 2)) (1 # 2) (- (1 # 2)) (1 # 2)],
       Some (600, 200, 300, 200));
      ([glOrtho (- (1 # 2)) (1 # 2) (- (1 # 2)) (1 # 2) (- (1 # 2)) (1 # 2)],
       Some (600, 400, 300, 200)) ].
Proof.
  intros v.
  assert (HW : 0 <= _width v) by (vm_compute; discriminate).
  assert (HH : 0 < _height v) by reflexivity.
  assert (Hrho : ~ (rho v == 0)%Q) by (intros H; discriminate H).
  assert (Hlen : (length (_trails v) <= length (visible v))%nat)
    by (simpl; lia).
  repeat (split; [assumption|]).
  destruct (draw_viewport_partition v HW HH Hrho Hlen)
    as (_ & _ & H96 & Hviews).
  split; [apply H96; reflexivity|].
  rewrite Hviews. reflexivity.
Defined.

(** C6 as stated fails on the code: on the 800 x 600 surface a viewer
    starts with, the perspective viewport is 533 wide and the orthographic
    viewports are 266 wide, not 800 - 533 = 267. *)
Lemma draw_ortho_width_is_half_left_width :
  let v := sample_viewer 30 in
  _width v = 800 /\ _height v = 600 /\
  viewports (calls (handle_draw v))
  = [(0, 0, 533, 600); (533, 0, 266, 200); (533, 200, 266, 200);
     (533, 400, 266, 200)] /\
  266 <> 800 - 2 * 800 / 3.
Proof.
  vm_compute. repeat split; discriminate.
Qed.

(** ** The mouse callbacks *)

Section Mouse.
Variable exp : Q -> option Q.

(** A drag with the left button and neither Ctrl nor Alt held. *)
Lemma handle_mouse_movement_left x y v modifier :
  _mouse_button v = Some (GLUT_LEFT_BUTTON, modifier) ->
  Z.land modifier GLUT_ACTIVE_CTRL = 0 ->
  Z.land modifier GLUT_ACTIVE_ALT = 0 ->
  _width v <> 0 -> _height v <> 0 ->
  handle_mouse_movement exp x y v
  = mkOutcome
      (set_d_theta (5 * inject_Z (x - _width v / 2) / inject_Z (_width v))
         (set_d_phi
            (5 * inject_Z (y - _height v / 2) / inject_Z (_height v)) v))
      [] (inr tt).
Proof.
  intros Hb Hctrl Halt HW HH.
  unfold handle_mouse_movement, mbind, M_bind, get. simpl.
  rewrite Hb, Hctrl, Halt. simpl.
  rewrite fdiv_ok by (apply inject_Z_nonzero, HH). simpl.
  rewrite fdiv_ok by (apply inject_Z_nonzero, HW). reflexivity.
Qed.

(** C7, as the code has it: on a left-button drag (after the modifier
    remap) to the cursor [(x, y)] in a viewport of size [W x H], the
    velocities are set from the offset of the cursor from the point
    [(floor(W/2), floor(H/2))]: [d_phi = 5 (y - floor(H/2)) / H] and
    [d_theta = 5 (x - floor(W/2)) / W]; they are functions of the cursor and
    of the viewport size alone, so not of any earlier cursor position.  At
    800 x 600 with the cursor at (400, 240) this gives [d_phi = -1/2] and
    [d_theta = 0], and one tick from [phi = 300] then gives
    [phi = 299.5]. *)
Theorem left_drag_velocity_from_centre x y v modifier :
  _mouse_button v = Some (GLUT_LEFT_BUTTON, modifier) ->
  Z.land modifier GLUT_ACTIVE_CTRL = 0 ->
  Z.land modifier GLUT_ACTIVE_ALT = 0 ->
  _width v <> 0 -> _height v <> 0 ->
  let W := _width v in
  let H := _height v in
  let o := handle_mouse_movement exp x y v in
  result o = inr tt /\
  _d_phi (self o) = (5 * inject_Z (y - H / 2) / inject_Z H)%Q /\
  _d_theta (self o) = (5 * inject_Z (x - W / 2) / inject_Z W)%Q /\
  (W = 800 -> H = 600 -> x = 400 -> y = 240 ->
   (_d_phi (self o) == - (1 # 2))%Q /\ (_d_theta (self o) == 0)%Q /\
   forall now now',
     (phi v == 300)%Q -> ~ (_d_rho v == 0)%Q ->
     (phi (self (handle_idle now now' (self o))) == 2995 # 10)%Q).
Proof.
  intros Hb Hctrl Halt HW HH W H o.
  unfold o. rewrite (handle_mouse_movement_left x y v modifier) by assumption.
  simpl. split; [reflexivity|]. split; [reflexivity|]. split; [reflexivity|].
  fold W H. intros -> -> -> ->.
  split; [reflexivity|]. split; [reflexivity|].
  intros now now' Hphi Hd.
  match goal with
  | |- (phi (self (handle_idle _ _ ?u)) == _)%Q =>
      destruct (handle_idle_integrates now now' u Hd) as (_ & -> & _)
  end.
  simpl. rewrite Hphi. reflexivity.
Qed.

End Mouse.

Lemma left_drag_velocity_from_centre_witness :
  let v := set_mouse_button (Some (GLUT_LEFT_BUTTON, 0)) (sample_viewer 30) in
  let o := handle_mouse_movement (fun _ => Some 1%Q) 400 240 v in
  _mouse_button v = Some (GLUT_LEFT_BUTTON, 0) /\
  Z.land 0 GLUT_ACTIVE_CTRL = 0 /\ Z.land 0 GLUT_ACTIVE_ALT = 0 /\
  _width v <> 0 /\ _height v <> 0 /\
  (_d_phi (self o) == - (1 # 2))%Q /\
  (phi (self (handle_idle 1 2 (self o))) == 2995 # 10)%Q.
Proof.
  intros v o.
  assert (Hb : _mouse_button v = Some (GLUT_LEFT_BUTTON, 0)) by reflexivity.
  assert (Hc : Z.land 0 GLUT_ACTIVE_CTRL = 0) by reflexivity.
  assert (Ha : Z.land 0 GLUT_ACTIVE_ALT = 0) by reflexivity.
  assert (HW : _width v <> 0) by discriminate.
  assert (HH : _height v <> 0) by discriminate.
  repeat (split; [assumption|]).
  destruct (left_drag_velocity_from_centre (fun _ => Some 1%Q) 400 240 v 0
              Hb Hc Ha HW HH) as (_ & _ & _ & Hex).
  destruct Hex as (Hphi & _ & Htick); try reflexivity.
  split; [exact Hphi|].
  apply Htick; [reflexivity|]. intros H; discriminate H.
Defined.

(** C7 as stated fails on the code when the viewport has an odd size.  At
    800 x 601 the centre is at height 300.5, but a left drag to (400, 300)
    gives [d_phi = 0], not [5 (300 - 601/2) / 601]; at 801 x 600 a drag to
    (400, 300) gives [d_theta = 0], not [5 (400 - 801/2) / 801]. *)
Lemma left_drag_centre_is_rounded_down :
  let v := set_mouse_button (Some (GLUT_LEFT_BUTTON, 0)) (sample_viewer 30) in
  let o := handle_mouse_movement (fun _ => Some 1%Q) 400 300 (set_height 601 v) in
  let o' := handle_mouse_movement (fun _ => Some 1%Q) 400 300 (set_width 801 v) in
  result o = inr tt /\ (_d_phi (self o) == 0)%Q /\
  ~ (_d_phi (self o) == 5 * (300 - (601 # 2)) / 601)%Q /\
  result o' = inr tt /\ (_d_theta (self o') == 0)%Q /\
  ~ (_d_theta (self o') == 5 * (400 - (801 # 2)) / 801)%Q.
Proof.
  vm_compute. repeat split; try discriminate; intros H; discriminate H.
Qed.

(** ** Sessions *)

Lemma handle_draw_outcome v :
  ~ (rho v == 0)%Q -> (length (_trails v) <= length (visible v))%nat ->
  self (handle_draw v) = v /\
  result (handle_draw v)
  = if Qeq_bool (inject_Z (_height v)) 0 then inl ZeroDivisionError
    else inr tt.
Proof.
  intros Hrho Hlen. unfold handle_draw, mbind, M_bind, get. simpl.
  rewrite render_model_calls by assumption. simpl.
  destruct (Qeq_bool (inject_Z (_height v)) 0) eqn:E.
  - rewrite fdiv_zero by (apply Qeq_bool_iff, E). auto.
  - rewrite fdiv_ok by (apply Qeq_bool_neq, E). simpl.
    rewrite fdiv_ok by exact Hrho. simpl. auto.
Qed.

Lemma set_visible_same v : set_visible (visible v) v = v.
Proof. destruct v. reflexivity. Qed.

Ltac split_ifs :=
  repeat match goal with
    | |- context [if ?c then _ else _] => destruct c eqn:?; simpl
    | |- context [match ?c with Some _ => _ | None => _ end] =>
        destruct c eqn:?; simpl
    | |- context [match ?c with inl _ => _ | inr _ => _ end] =>
        destruct c eqn:?; simpl
    | |- context [match ?c with [] => _ | _ :: _ => _ end] =>
        destruct c eqn:?; simpl
    | |- context [let '(_, _) := ?c in _] => destruct c eqn:?; simpl
    end.

Section Run.
Variable exp : Q -> option Q.

(** The callbacks other than the visibility toggle and the draw callback
    neither read nor write the visibility flags. *)
Lemma handle_reshape_set_visible l w h v :
  handle_reshape w h (set_visible l v)
  = map_self (set_visible l) (handle_reshape w h v).
Proof. reflexivity. Qed.

Lemma handle_special_keypress_set_visible l key x y v :
  handle_special_keypress key x y (set_visible l v)
  = map_self (set_visible l) (handle_special_keypress key x y v).
Proof. unfold handle_special_keypress. split_ifs; reflexivity. Qed.

Lemma handle_mouse_movement_set_visible l x y v :
  handle_mouse_movement exp x y (set_visible l v)
  = map_self (set_visible l) (handle_mouse_movement exp x y v).
Proof.
  unfold handle_mouse_movement, mbind, M_bind, mret, M_ret, get, fdiv, raise,
    modify, map_self.
  simpl. split_ifs; reflexivity.
Qed.

Lemma handle_mouse_button_set_visible l button state modifiers x y v :
  handle_mouse_button exp button state modifiers x y (set_visible l v)
  = map_self (set_visible l)
      (handle_mouse_button exp button state modifiers x y v).
Proof.
  unfold handle_mouse_button. destruct (state =? GLUT_UP); [reflexivity|].
  unfold mbind, M_bind, modify. simpl.
  change (set_mouse_button (Some (button, modifiers)) (set_visible l v))
    with (set_visible l (set_mouse_button (Some (button, modifiers)) v)).
  rewrite handle_mouse_movement_set_visible.
  destruct (handle_mouse_movement exp x y _) as [v' cs [e|[]]]; reflexivity.
Qed.

Lemma handle_idle_set_visible l now now' v :
  handle_idle now now' (set_visible l v)
  = map_self (set_visible l) (handle_idle now now' v).
Proof.
  unfold handle_idle, next_frame, mbind, M_bind, mret, M_ret, get, fdiv,
    raise, modify, emit, map_self.
  simpl. split_ifs; reflexivity.
Qed.

Lemma reset_trails_set_visible l v :
  _reset_trails (set_visible l v) = map_self (set_visible l) (_reset_trails v).
Proof.
  unfold _reset_trails, mbind, M_bind, get, raise, modify, map_self. simpl.
  split_ifs; reflexivity.
Qed.

Lemma handle_keypress_set_visible l char x y v :
  is_toggle (Keypress char x y) = false ->
  handle_keypress char x y (set_visible l v)
  = map_self (set_visible l) (handle_keypress char x y v).
Proof.
  unfold is_toggle, handle_keypress. intros Ht.
  destruct (Ascii.eqb char "q"); [reflexivity|].
  simpl in Ht. rewrite Ht.
  unfold _reset_trails, mbind, M_bind, get, raise, modify, map_self. simpl.
  split_ifs; reflexivity.
Qed.

Lemma dispatch_set_visible l e v :
  is_toggle e = false -> e <> Draw ->
  dispatch exp e (set_visible l v)
  = map_self (set_visible l) (dispatch exp e v).
Proof.
  intros Ht Hd. destruct e; simpl.
  - apply handle_keypress_set_visible, Ht.
  - apply handle_special_keypress_set_visible.
  - apply handle_reshape_set_visible.
  - apply handle_mouse_button_set_visible.
  - apply handle_mouse_movement_set_visible.
  - apply handle_idle_set_visible.
  - contradiction.
Qed.

End Run.

(** ** What holds of every viewer that a session reaches *)

Lemma Qdiv_nonzero (a b : Q) :
  ~ (a == 0)%Q -> ~ (b == 0)%Q -> ~ (a / b == 0)%Q.
Proof.
  intros Ha Hb H. apply Ha.
  rewrite <- (Qmult_div_r a b Hb), H. apply Qmult_0_r.
Qed.

Lemma Qmult_nonzero (a b : Q) :
  ~ (a == 0)%Q -> ~ (b == 0)%Q -> ~ (a * b == 0)%Q.
Proof.
  intros Ha Hb H. apply Qmult_integral in H. tauto.
Qed.

Lemma append_points_length trails points :
  length (append_points trails points) = length trails.
Proof.
  revert points. induction trails as [|d trails IH]; intros [|p points];
    simpl; try reflexivity.
  rewrite IH. reflexivity.
Qed.

Lemma append_points_wf (m : Z) trails points :
  Forall (fun d => Deque.wf d /\ Deque.maxlen d = m) trails ->
  Forall (fun d => Deque.wf d /\ Deque.maxlen d = m)
    (append_points trails points).
Proof.
  intros Hall. revert points.
  induction Hall as [|d trails [Hwf Hm] Hall IH]; intros [|p points]; simpl;
    try (constructor; auto).
  split; [apply append_wf, Hwf|exact Hm].
Qed.

(** The point appended to the trail of marker [i] by a frame. *)
Lemma append_points_lookup trails points i d p :
  trails !! i = Some d -> points !! i = Some p ->
  append_points trails points !! i = Some (Deque.append d (take 3 p)).
Proof.
  revert points i. induction trails as [|d' trails IH];
    intros [|p' points] [|i]; simpl; try discriminate.
  - intros [= ->] [= ->]. reflexivity.
  - apply IH.
Qed.

Lemma rebuilt_trails_wf (m : Z) (trails : list (Deque.t point)) :
  0 <= m ->
  Forall (fun d => Deque.wf d /\ Deque.maxlen d = m)
    ((fun d => Deque.mk (lastn (Z.to_nat m) (Deque.items d)) m) <$> trails).
Proof.
  intros Hm. apply Forall_fmap, Forall_forall. intros d _. simpl.
  split; [|reflexivity].
  unfold Deque.wf, Deque.size. simpl. rewrite lastn_length. lia.
Qed.

Lemma init_inv r model_list v : __init__ r model_list = inr v -> inv v.
Proof.
  rewrite init_returns. intros [= <-]. unfold inv. simpl.
  split; [lia|]. split; [intros H; discriminate H|].
  split; [rewrite !length_replicate; reflexivity|].
  apply Forall_replicate. split; [|reflexivity].
  unfold Deque.wf, Deque.size. simpl. lia.
Qed.

Ltac inv_fields :=
  match goal with
  | H : inv _ |- inv _ =>
      let Hm := fresh "Hm" in let Hr := fresh "Hr" in
      let Hl := fresh "Hl" in let Hw := fresh "Hw" in
      destruct H as (Hm & Hr & Hl & Hw); unfold inv; simpl;
      repeat split; try assumption
  end.

Section Invariant.
Variable exp : Q -> option Q.

Lemma handle_reshape_inv w h v : inv v -> inv (self (handle_reshape w h v)).
Proof. intros Hinv. exact Hinv. Qed.

Lemma handle_special_keypress_inv key x y v :
  inv v -> inv (self (handle_special_keypress key x y v)).
Proof.
  intros Hinv. unfold handle_special_keypress. split_ifs; try exact Hinv;
    inv_fields.
  - apply Qdiv_nonzero; [assumption|]. intros H; discriminate H.
  - apply Qmult_nonzero; [assumption|]. intros H; discriminate H.
Qed.

Lemma handle_mouse_movement_inv x y v :
  inv v -> inv (self (handle_mouse_movement exp x y v)).
Proof.
  intros Hinv.
  unfold handle_mouse_movement, mbind, M_bind, mret, M_ret, get, fdiv, raise,
    modify.
  simpl. split_ifs; exact Hinv.
Qed.

Lemma handle_mouse_button_inv button state modifiers x y v :
  inv v -> inv (self (handle_mouse_button exp button state modifiers x y v)).
Proof.
  intros Hinv. unfold handle_mouse_button.
  destruct (state =? GLUT_UP); [exact Hinv|].
  unfold mbind, M_bind, modify. simpl.
  pose proof (handle_mouse_movement_inv x y
    (set_mouse_button (Some (button, modifiers)) v) Hinv) as H.
  destruct (handle_mouse_movement exp x y _) as [v' cs [e|[]]]; exact H.
Qed.

Lemma handle_idle_inv now now' v : inv v -> inv (self (handle_idle now now' v)).
Proof.
  intros Hinv.
  unfold handle_idle, next_frame, mbind, M_bind, mret, M_ret, get, fdiv,
    raise, modify, emit.
  simpl. split_ifs; try exact Hinv; inv_fields;
    try (apply Qdiv_nonzero; [assumption|];
         apply Qeq_bool_neq; assumption).
  - rewrite append_points_length. assumption.
  - apply append_points_wf. assumption.
Qed.

(** The keys that resize the trails are the one place where the object
    can be left with trails that are behind its capacity: when the new
    capacity is more than a deque can have, [_reset_trails] raises with the
    capacity already set and the trails as they were. *)
Lemma handle_keypress_inv_or_overflow char x y v :
  inv v ->
  let o := handle_keypress char x y v in
  inv (self o) \/
  (result o = inl OverflowError /\
   exists m, 1 <= m /\ self o = set_maxlen m v).
Proof.
  intros Hinv o. unfold o.
  destruct (in_str char "0123456789") eqn:Hdigit.
  { left. rewrite handle_keypress_digit by exact Hdigit.
    destruct (visible v !! _); [|exact Hinv].
    inv_fields. rewrite length_insert. assumption. }
  assert (Hresize : forall m, 1 <= m ->
    let o := map_self id (_reset_trails (set_maxlen m v)) in
    inv (self o) \/
    (result o = inl OverflowError /\
     exists m, 1 <= m /\ self o = set_maxlen m v)).
  { intros m Hm.
    destruct (Z_le_gt_dec m PY_SSIZE_T_MAX) as [Hfit|Hbig].
    - left. rewrite reset_trails_ok by (simpl; lia).
      inv_fields; simpl; try lia.
      + rewrite length_fmap. assumption.
      + apply rebuilt_trails_wf. lia.
    - destruct (_trails v) as [|d trails] eqn:Htrails.
      + left. unfold _reset_trails, mbind, M_bind, get, modify. simpl.
        rewrite Htrails. simpl.
        inv_fields; simpl; try lia.
        * rewrite Hl, Htrails. reflexivity.
        * constructor.
      + right. rewrite reset_trails_overflow;
          [|simpl; lia|simpl; rewrite Htrails; discriminate].
        simpl. split; [reflexivity|]. exists m. split; [lia|reflexivity]. }
  assert (Hm : 1 <= maxlen v) by apply Hinv.
  destruct (in_str char "+=") eqn:Hplus.
  { rewrite handle_keypress_plus by exact Hplus. apply Hresize. lia. }
  destruct (in_str char "_-") eqn:Hminus.
  { rewrite handle_keypress_minus by exact Hminus. apply Hresize. lia. }
  left. unfold handle_keypress. rewrite Hdigit, Hplus, Hminus.
  split_ifs; exact Hinv.
Qed.

Lemma handle_keypress_inv char x y v :
  inv v -> result (handle_keypress char x y v) <> inl OverflowError ->
  inv (self (handle_keypress char x y v)).
Proof.
  intros Hinv Hres.
  destruct (handle_keypress_inv_or_overflow char x y v Hinv)
    as [H|[H _]]; [exact H|contradiction].
Qed.

Lemma handle_draw_inv v : inv v -> inv (self (handle_draw v)).
Proof.
  intros Hinv.
  destruct (handle_draw_outcome v) as [-> _]; [apply Hinv| |exact Hinv].
  destruct Hinv as (_ & _ & -> & _). reflexivity.
Qed.

Lemma dispatch_inv_or_overflow e v :
  inv v ->
  let o := dispatch exp e v in
  inv (self o) \/
  (result o = inl OverflowError /\
   exists m, 1 <= m /\ self o = set_maxlen m v).
Proof.
  intros Hinv. destruct e; simpl.
  - apply handle_keypress_inv_or_overflow, Hinv.
  - left. apply handle_special_keypress_inv, Hinv.
  - left. apply handle_reshape_inv, Hinv.
  - left. apply handle_mouse_button_inv, Hinv.
  - left. apply handle_mouse_movement_inv, Hinv.
  - left. apply handle_idle_inv, Hinv.
  - left. apply handle_draw_inv, Hinv.
Qed.

Lemma dispatch_inv e v :
  inv v -> result (dispatch exp e v) <> inl OverflowError ->
  inv (self (dispatch exp e v)).
Proof.
  intros Hinv Hres.
  destruct (dispatch_inv_or_overflow e v Hinv) as [H|[H _]];
    [exact H|contradiction].
Qed.

Lemma mainloop_cons e events v :
  mainloop exp (e :: events) v
  = match dispatch exp e v with
    | mkOutcome v1 cs1 (inl err) => mkOutcome v1 cs1 (inl err)
    | mkOutcome v1 cs1 (inr _) =>
        match mainloop exp events v1 with
        | mkOutcome v2 cs2 r => mkOutcome v2 (cs1 ++ cs2) r
        end
    end.
Proof. reflexivity. Qed.

(** Every viewer a session passes through, from its construction on, has a
    trail capacity of at least 1, a non-zero zoom, one visibility flag per
    trail, and trails within that capacity; so has the viewer it ends with,
    unless it ends with the [OverflowError] of a resizing key, which leaves
    such a viewer with another capacity. *)
Lemma mainloop_inv_or_overflow events v :
  inv v ->
  let o := mainloop exp events v in
  inv (self o) \/
  (result o = inl OverflowError /\
   exists w m, inv w /\ 1 <= m /\ self o = set_maxlen m w).
Proof.
  revert v. induction events as [|e events IH]; intros v Hinv;
    [left; exact Hinv|].
  cbv zeta. rewrite mainloop_cons.
  pose proof (dispatch_inv_or_overflow e v Hinv) as He.
  destruct (dispatch exp e v) as [v1 cs1 [err|[]]]; simpl in He.
  - destruct He as [He|(He & m & Hm & Hself)]; [left; exact He|].
    right. split; [exact He|]. exists v, m. auto.
  - destruct He as [He|(He & _)]; [|discriminate He].
    specialize (IH v1 He). cbv zeta in IH.
    destruct (mainloop exp events v1) as [v2 cs2 r]. exact IH.
Qed.

Lemma mainloop_inv events v :
  inv v -> result (mainloop exp events v) <> inl OverflowError ->
  inv (self (mainloop exp events v)).
Proof.
  intros Hinv Hres.
  destruct (mainloop_inv_or_overflow events v Hinv) as [H|[H _]];
    [exact H|contradiction].
Qed.

End Invariant.

(** ** Visibility flags over a session *)

Section Visibility.
Variable exp : Q -> option Q.

Lemma is_toggle_digit e :
  is_toggle e = true ->
  exists char x y,
    e = Keypress char x y /\ in_str char "0123456789"%string = true.
Proof.
  destruct e as [char x y| | | | | |]; try discriminate.
  simpl. intros [_ Hd]%andb_true_iff. eauto.
Qed.

(** An event that is not a toggle meets two viewers that differ in their
    visibility flags alike. *)
Lemma dispatch_related e v l :
  inv v -> length l = length (visible v) -> is_toggle e = false ->
  result (dispatch exp e (set_visible l v)) = result (dispatch exp e v) /\
  self (dispatch exp e (set_visible l v))
  = set_visible l (self (dispatch exp e v)) /\
  visible (self (dispatch exp e v)) = visible v.
Proof.
  intros Hinv Hlen Ht.
  assert (Hcase : e = Draw \/ e <> Draw)
    by (destruct e; auto; right; discriminate).
  destruct Hcase as [->|Hd].
  - simpl. destruct Hinv as (_ & Hrho & Hl & _).
    destruct (handle_draw_outcome v) as [-> ->]; [exact Hrho|lia|].
    destruct (handle_draw_outcome (set_visible l v)) as [-> ->];
      [exact Hrho|simpl; lia|].
    auto.
  - rewrite (dispatch_set_visible exp l e v Ht Hd). simpl.
    split; [reflexivity|]. split; [reflexivity|].
    pose proof (dispatch_set_visible exp (visible v) e v Ht Hd) as Hsame.
    rewrite set_visible_same in Hsame.
    rewrite Hsame at 1. reflexivity.
Qed.

Lemma dispatch_visible_unchanged e v :
  inv v -> is_toggle e = false ->
  visible (self (dispatch exp e v)) = visible v.
Proof.
  intros Hinv Ht.
  apply (dispatch_related e v (visible v) Hinv eq_refl Ht).
Qed.

(** A toggle flips the flag of the marker that the digit names, if there is
    one, and no other. *)
Lemma toggle_visible_elsewhere char x y v (i : nat) :
  in_str char "0123456789"%string = true ->
  i <> Z.to_nat (int_of_digit char) ->
  visible (self (handle_keypress char x y v)) !! i = visible v !! i.
Proof.
  intros Hd Hi. rewrite handle_keypress_digit by exact Hd.
  destruct (visible v !! _); [|reflexivity].
  simpl. apply list_lookup_insert_ne. congruence.
Qed.

Lemma dispatch_visible_high e v (i : nat) :
  inv v -> (10 <= i)%nat ->
  visible (self (dispatch exp e v)) !! i = visible v !! i.
Proof.
  intros Hinv Hi. destruct (is_toggle e) eqn:Ht.
  - destruct (is_toggle_digit e Ht) as (char & x & y & -> & Hd).
    simpl. apply toggle_visible_elsewhere; [exact Hd|].
    pose proof (digit_cases char Hd) as [_ Hr]. lia.
  - rewrite dispatch_visible_unchanged by assumption. reflexivity.
Qed.

Lemma mainloop_visible_high events v (i : nat) :
  inv v -> (10 <= i)%nat ->
  visible (self (mainloop exp events v)) !! i = visible v !! i.
Proof.
  revert v. induction events as [|e events IH]; intros v Hinv Hi;
    [reflexivity|].
  rewrite mainloop_cons.
  pose proof (dispatch_visible_high e v i Hinv Hi) as He.
  pose proof (dispatch_inv exp e v Hinv) as Hinv1.
  destruct (dispatch exp e v) as [v1 cs1 [err|[]]]; [exact He|].
  specialize (IH v1 (Hinv1 ltac:(discriminate)) Hi).
  destruct (mainloop exp events v1) as [v2 cs2 r].
  simpl in *. congruence.
Qed.

(** C10: a constructed viewer has every visibility flag set; an event that
    is not a digit key leaves all flags as they are, and a digit key names
    an index from 0 to 9 and leaves the flags at all other indices as they
    are; so whatever the events of the session, every marker of index 10 or
    more is visible at its end. *)
Theorem markers_beyond_digit_keys_stay_visible r model_list v :
  __init__ r model_list = inr v ->
  visible v = replicate (xrange_len (num_points r)) true /\
  (forall e u, inv u -> is_toggle e = false ->
     visible (self (dispatch exp e u)) = visible u) /\
  (forall e u, is_toggle e = true ->
     exists char x y,
       e = Keypress char x y /\ 0 <= int_of_digit char <= 9 /\
       forall i : nat, i <> Z.to_nat (int_of_digit char) ->
         visible (self (dispatch exp e u)) !! i = visible u !! i) /\
  (forall events (i : nat),
     (10 <= i < xrange_len (num_points r))%nat ->
     visible (self (mainloop exp events v)) !! i = Some true).
Proof.
  intros Hinit. pose proof (init_inv r model_list v Hinit) as Hinv.
  rewrite init_returns in Hinit. injection Hinit as <-. simpl.
  split; [reflexivity|].
  split; [intros e u Hu Ht; apply dispatch_visible_unchanged; assumption|].
  split.
  - intros e u Ht.
    destruct (is_toggle_digit e Ht) as (char & x & y & -> & Hd).
    exists char, x, y. split; [reflexivity|].
    split; [apply (digit_cases char Hd)|].
    intros i Hi. simpl. apply toggle_visible_elsewhere; assumption.
  - intros events i [Hlo Hhi].
    rewrite mainloop_visible_high by assumption. simpl.
    apply lookup_replicate_2. exact Hhi.
Qed.

End Visibility.

Lemma markers_beyond_digit_keys_stay_visible_witness :
  let r := mkReader sample_frames 30 12 in
  let events :=
    [Keypress "9" 0 0; Idle 1 2; Keypress "1" 0 0; Draw; Keypress "+" 0 0] in
  exists v,
    __init__ r 1 = inr v /\
    visible (self (mainloop (fun _ => Some 1%Q) events v)) !! 10%nat = Some true.
Proof.
  intros r events. eexists. split; [apply init_returns|].
  eapply (markers_beyond_digit_keys_stay_visible (fun _ => Some 1%Q) r 1);
    [apply init_returns|].
  unfold r, xrange_len. simpl. lia.
Defined.

(** ** Trails do not depend on visibility *)

Section Trails.
Variable exp : Q -> option Q.

Lemma strip_toggles_cons_toggle e events :
  is_toggle e = true -> strip_toggles (e :: events) = strip_toggles events.
Proof.
  intros Ht. unfold strip_toggles. apply filter_cons_False. congruence.
Qed.

Lemma strip_toggles_cons_other e events :
  is_toggle e = false ->
  strip_toggles (e :: events) = e :: strip_toggles events.
Proof.
  intros Ht. unfold strip_toggles. apply filter_cons_True. exact Ht.
Qed.

(** A session, and the same session without its toggles started with other
    visibility flags [l]: they end alike, and in the same viewer up to
    the flags, which the second one has kept. *)
Lemma mainloop_strip events :
  forall v l,
    inv v -> length l = length (visible v) ->
    toggles_in_range (length (visible v)) events ->
    result (mainloop exp (strip_toggles events) (set_visible l v))
    = result (mainloop exp events v) /\
    self (mainloop exp (strip_toggles events) (set_visible l v))
    = set_visible l (self (mainloop exp events v)).
Proof.
  induction events as [|e events IH]; intros v l Hinv Hlen Hrange;
    [split; reflexivity|].
  apply Forall_cons in Hrange as [He Hrange].
  destruct (is_toggle e) eqn:Ht.
  - rewrite strip_toggles_cons_toggle by exact Ht.
    destruct (is_toggle_digit e Ht) as (char & x & y & -> & Hd).
    specialize (He eq_refl).
    pose proof (digit_cases char Hd) as [_ Hr].
    rewrite mainloop_cons. simpl dispatch.
    rewrite handle_keypress_digit by exact Hd.
    destruct (lookup_lt_is_Some_2 (visible v) (Z.to_nat (int_of_digit char)))
      as [b Hb]; [lia|].
    rewrite Hb.
    set (v1 := set_visible
      (<[Z.to_nat (int_of_digit char) := xorb b true]> (visible v)) v).
    assert (Hinv1 : inv v1).
    { pose proof (handle_keypress_inv char x y v Hinv) as H.
      rewrite handle_keypress_digit, Hb in H by exact Hd.
      apply H. discriminate. }
    assert (Hlen1 : length (visible v1) = length (visible v))
      by (unfold v1; simpl; apply length_insert).
    destruct (IH v1 l Hinv1) as [Hres Hself];
      [congruence|rewrite Hlen1; exact Hrange|].
    change (set_visible l v1) with (set_visible l v) in Hres, Hself.
    rewrite Hres, Hself.
    destruct (mainloop exp events v1) as [v2 cs2 res]. split; reflexivity.
  - rewrite strip_toggles_cons_other by exact Ht.
    rewrite !mainloop_cons.
    destruct (dispatch_related exp e v l Hinv Hlen Ht) as (Hres & Hself & Hvis).
    pose proof (dispatch_inv exp e v Hinv) as Hinv1.
    destruct (dispatch exp e (set_visible l v)) as [u1 ds1 res'].
    destruct (dispatch exp e v) as [v1 cs1 res].
    simpl in Hres, Hself, Hvis, Hinv1. subst res' u1.
    destruct res as [err|[]]; [split; reflexivity|].
    destruct (IH v1 l (Hinv1 ltac:(discriminate))) as [Hres Hself];
      [congruence|rewrite Hvis; exact Hrange|].
    destruct (mainloop exp (strip_toggles events) (set_visible l v1))
      as [u2 ds2 res'].
    destruct (mainloop exp events v1) as [v2 cs2 res].
    simpl in Hres, Hself. subst. split; reflexivity.
Qed.

(** C9: the tick that reads a frame appends the point of every marker to
    that marker's trail whatever the visibility flags are; what
    [render_model] submits is the lights and axes and then the trails of the
    markers whose flag is set, and of no other; and the trails at the end of
    a session, whose toggles name markers that exist, are those at the end
    of the same session with the toggles left out, in which every marker
    has stayed visible throughout. *)
Theorem hidden_markers_keep_their_trails r model_list v events :
  __init__ r model_list = inr v ->
  toggles_in_range (length (visible v)) events ->
  let o := mainloop exp events v in
  let o' := mainloop exp (strip_toggles events) v in
  (forall l u now now' f rest (i : nat) d p,
     paused u = false -> ~ (_d_rho u == 0)%Q -> ~ (_frame_rate u == 0)%Q ->
     (1 / _frame_rate u < now - _last_time u)%Q -> _frames u = f :: rest ->
     _trails u !! i = Some d -> fst f !! i = Some p ->
     _trails (self (handle_idle now now' (set_visible l u))) !! i
     = Some (Deque.append d (take 3 p))) /\
  (forall u, inv u ->
     calls (render_model u)
     = glNewList (_model_list u)
       :: lights_and_axes
       ++ markers_calls (rho u) (visible u) (_trails u) ++ [glEndList]) /\
  visible (self o') = replicate (length (visible v)) true /\
  result o' = result o /\
  _trails (self o') = _trails (self o).
Proof.
  intros Hinit Hrange o o'.
  pose proof (init_inv r model_list v Hinit) as Hinv.
  split; [|split].
  - intros l u now now' f rest i d p Hp Hd Hf He Hfr Hdq Hpt.
    rewrite (handle_idle_due now now' (set_visible l u) f rest)
      by assumption.
    simpl. apply append_points_lookup; assumption.
  - intros u (_ & Hrho & Hl & _).
    rewrite render_model_calls by (assumption || lia). reflexivity.
  - destruct (mainloop_strip events v (visible v) Hinv eq_refl Hrange)
      as [Hres Hself].
    rewrite set_visible_same in Hres, Hself. fold o o' in Hres, Hself.
    rewrite Hres, Hself. simpl.
    split; [|split; reflexivity].
    rewrite init_returns in Hinit. injection Hinit as <-. simpl.
    rewrite length_replicate. reflexivity.
Qed.

End Trails.

Lemma hidden_markers_keep_their_trails_witness :
  let r := sample_reader 30 in
  let events :=
    [Keypress "1" 0 0; Idle 1 2; Draw; Keypress "+" 0 0; Idle 3 4;
     Keypress "1" 0 0] in
  exists v,
    __init__ r 1 = inr v /\
    toggles_in_range (length (visible v)) events /\
    _trails (self (mainloop (fun _ => Some 1%Q) (strip_toggles events) v))
    = _trails (self (mainloop (fun _ => Some 1%Q) events v)).
Proof.
  intros r events. eexists. split; [apply init_returns|].
  match goal with
  | |- ?R /\ _ =>
      assert (Hrange : R)
        by (repeat constructor; intros _; vm_compute; reflexivity)
  end.
  split; [exact Hrange|].
  apply (hidden_markers_keep_their_trails (fun _ => Some 1%Q) r 1 _ events
           (init_returns r 1) Hrange).
Defined.

Example hidden_marker_trail_grows :
  let events := [Keypress "1" 0 0; Idle 1 2; Keypress "+" 0 0; Idle 3 4] in
  let v := self (mainloop (fun _ => Some 1%Q) events (sample_viewer 30)) in
  visible v = [true; false] /\
  Deque.items <$> _trails v
  = [[[1; 2; 3]; [7; 8; 9]]; [[4; 5; 6]; [10; 11; 12]]]%Q.
Proof. vm_compute. split; reflexivity. Qed.

(** * Further properties of the callbacks *)

(** ** Gestures *)

Section Gestures.
Variable exp : Q -> option Q.

(** Releasing a mouse button, whatever was being dragged and wherever,
    returns normally, forgets the button and sets the velocities to their
    neutral values; the ticks that follow leave the camera where it is. *)
Theorem button_up_stops_the_camera button modifiers x y v :
  let o := handle_mouse_button exp button GLUT_UP modifiers x y v in
  result o = inr tt /\ calls o = [] /\
  self o
  = set_d_rho 1 (set_d_phi 0 (set_d_theta 0 (set_mouse_button None v))) /\
  forall now now',
    let u := self (handle_idle now now' (self o)) in
    (theta u == theta v)%Q /\ (phi u == phi v)%Q /\ (rho u == rho v)%Q.
Proof.
  simpl. split; [reflexivity|]. split; [reflexivity|]. split; [reflexivity|].
  intros now now'.
  match goal with
  | |- context [handle_idle now now' ?w] =>
      destruct (handle_idle_integrates now now' w) as (-> & -> & ->);
        [intros H; discriminate H|]
  end.
  simpl. split; [apply Qplus_0_r|]. split; [apply Qplus_0_r|].
  unfold Qdiv. change (/ 1)%Q with 1%Q. apply Qmult_1_r.
Qed.

(** A drag with the right button, or with the left button while Alt is held
    (with or without Ctrl), in a viewport of non-zero height: [math.exp] is
    applied to the height of the cursor over [floor(H/2)], divided by [H]
    and by 1.3.  Where it returns, the zoom velocity is set to what it
    returns and nothing else changes; where it raises [OverflowError], so
    does the callback, and nothing changes.  The width of the viewport
    plays no part. *)
Theorem zoom_drag_sets_only_d_rho x y v button modifier :
  _mouse_button v = Some (button, modifier) ->
  button = GLUT_RIGHT_BUTTON \/
  (button = GLUT_LEFT_BUTTON /\ Z.land modifier GLUT_ACTIVE_ALT <> 0) ->
  _height v <> 0 ->
  handle_mouse_movement exp x y v
  = match
      exp (inject_Z (y - _height v / 2) / inject_Z (_height v) / (13 # 10))
    with
    | Some r => mkOutcome (set_d_rho r v) [] (inr tt)
    | None => mkOutcome v [] (inl OverflowError)
    end.
Proof.
  intros Hb Hbutton HH.
  unfold handle_mouse_movement, mbind, M_bind, get. simpl. rewrite Hb.
  destruct Hbutton as [-> | [-> Halt]]; simpl.
  - rewrite fdiv_ok by (apply inject_Z_nonzero, HH).
    destruct (exp _); reflexivity.
  - apply Z.eqb_neq in Halt. rewrite Halt.
    change (GLUT_RIGHT_BUTTON =? GLUT_LEFT_BUTTON) with false.
    change (GLUT_RIGHT_BUTTON =? GLUT_RIGHT_BUTTON) with true. simpl.
    rewrite fdiv_ok by (apply inject_Z_nonzero, HH).
    destruct (exp _); reflexivity.
Qed.

(** A drag with the middle button, with any button that is neither left nor
    right, or with the left button while Ctrl is held and Alt is not, does
    nothing at all, even in a viewport of size zero. *)
Theorem middle_drag_does_nothing x y v button modifier :
  _mouse_button v = Some (button, modifier) ->
  (button <> GLUT_LEFT_BUTTON /\ button <> GLUT_RIGHT_BUTTON) \/
  (button = GLUT_LEFT_BUTTON /\ Z.land modifier GLUT_ACTIVE_CTRL <> 0 /\
   Z.land modifier GLUT_ACTIVE_ALT = 0) ->
  handle_mouse_movement exp x y v = mkOutcome v [] (inr tt).
Proof.
  intros Hb Hbutton.
  unfold handle_mouse_movement, mbind, M_bind, get. simpl. rewrite Hb.
  destruct Hbutton as [[Hl Hr] | (-> & Hctrl & Halt)].
  - apply Z.eqb_neq in Hl, Hr. rewrite Hl. simpl. rewrite Hl, Hr.
    reflexivity.
  - apply Z.eqb_neq in Hctrl. simpl. rewrite Hctrl, Halt. reflexivity.
Qed.

(** A motion event that comes when no button is recorded raises
    [TypeError]; this is what the motion after a button release meets, for
    instance while a second button is still held. *)
Theorem motion_after_release_raises button modifiers x y x' y' v :
  let o :=
    mainloop exp
      [MouseButton button GLUT_UP modifiers x y; MouseMovement x' y'] v in
  result o = inl TypeError /\
  self o
  = set_d_rho 1 (set_d_phi 0 (set_d_theta 0 (set_mouse_button None v))).
Proof. split; reflexivity. Qed.

(** In a viewport of height zero a plain left drag raises
    [ZeroDivisionError] and changes nothing; in one of width zero and
    non-zero height it raises too, but only after [_d_phi] was set. *)
Theorem left_drag_in_empty_viewport x y v modifier :
  _mouse_button v = Some (GLUT_LEFT_BUTTON, modifier) ->
  Z.land modifier GLUT_ACTIVE_CTRL = 0 ->
  Z.land modifier GLUT_ACTIVE_ALT = 0 ->
  (_height v = 0 ->
   handle_mouse_movement exp x y v = mkOutcome v [] (inl ZeroDivisionError)) /\
  (_height v <> 0 -> _width v = 0 ->
   handle_mouse_movement exp x y v
   = mkOutcome
       (set_d_phi (5 * inject_Z (y - _height v / 2) / inject_Z (_height v)) v)
       [] (inl ZeroDivisionError)).
Proof.
  intros Hb Hctrl Halt.
  unfold handle_mouse_movement, mbind, M_bind, get. simpl.
  rewrite Hb, Hctrl, Halt. simpl. split.
  - intros ->. reflexivity.
  - intros HH ->. rewrite fdiv_ok by (apply inject_Z_nonzero, HH).
    reflexivity.
Qed.

End Gestures.

Lemma zoom_drag_sets_only_d_rho_witness :
  let v :=
    set_mouse_button
      (Some (GLUT_LEFT_BUTTON, GLUT_ACTIVE_CTRL + GLUT_ACTIVE_ALT))
      (sample_viewer 30) in
  let u := set_height 1 v in
  _mouse_button v
  = Some (GLUT_LEFT_BUTTON, GLUT_ACTIVE_CTRL + GLUT_ACTIVE_ALT) /\
  (GLUT_LEFT_BUTTON = GLUT_RIGHT_BUTTON \/
   (GLUT_LEFT_BUTTON = GLUT_LEFT_BUTTON /\
    Z.land (GLUT_ACTIVE_CTRL + GLUT_ACTIVE_ALT) GLUT_ACTIVE_ALT <> 0)) /\
  _height v <> 0 /\ _height u <> 0 /\
  handle_mouse_movement sample_exp 400 430 v
  = mkOutcome (set_d_rho ((130 # 600) / (13 # 10) + 1)%Q v) [] (inr tt) /\
  handle_mouse_movement sample_exp 400 1000 u
  = mkOutcome u [] (inl OverflowError).
Proof.
  intros v u.
  assert (Hb : _mouse_button v
    = Some (GLUT_LEFT_BUTTON, GLUT_ACTIVE_CTRL + GLUT_ACTIVE_ALT))
    by reflexivity.
  assert (Hbutton : GLUT_LEFT_BUTTON = GLUT_RIGHT_BUTTON \/
    (GLUT_LEFT_BUTTON = GLUT_LEFT_BUTTON /\
     Z.land (GLUT_ACTIVE_CTRL + GLUT_ACTIVE_ALT) GLUT_ACTIVE_ALT <> 0))
    by (right; split; [reflexivity|discriminate]).
  assert (HH : _height v <> 0) by discriminate.
  assert (HH' : _height u <> 0) by discriminate.
  repeat (split; [assumption|]).
  split.
  - rewrite (zoom_drag_sets_only_d_rho sample_exp 400 430 v _ _
               Hb Hbutton HH).
    reflexivity.
  - rewrite (zoom_drag_sets_only_d_rho sample_exp 400 1000 u _ _
               Hb Hbutton HH').
    reflexivity.
Defined.

Lemma middle_drag_does_nothing_witness :
  let v :=
    set_height 0
      (set_mouse_button (Some (GLUT_LEFT_BUTTON, GLUT_ACTIVE_CTRL))
         (sample_viewer 30)) in
  _mouse_button v = Some (GLUT_LEFT_BUTTON, GLUT_ACTIVE_CTRL) /\
  ((GLUT_LEFT_BUTTON <> GLUT_LEFT_BUTTON /\
    GLUT_LEFT_BUTTON <> GLUT_RIGHT_BUTTON) \/
   (GLUT_LEFT_BUTTON = GLUT_LEFT_BUTTON /\
    Z.land GLUT_ACTIVE_CTRL GLUT_ACTIVE_CTRL <> 0 /\
    Z.land GLUT_ACTIVE_CTRL GLUT_ACTIVE_ALT = 0)) /\
  handle_mouse_movement (fun _ => Some 1%Q) 10 20 v = mkOutcome v [] (inr tt).
Proof.
  intros v.
  assert (Hb : _mouse_button v = Some (GLUT_LEFT_BUTTON, GLUT_ACTIVE_CTRL))
    by reflexivity.
  assert (Hbutton :
    (GLUT_LEFT_BUTTON <> GLUT_LEFT_BUTTON /\
     GLUT_LEFT_BUTTON <> GLUT_RIGHT_BUTTON) \/
    (GLUT_LEFT_BUTTON = GLUT_LEFT_BUTTON /\
     Z.land GLUT_ACTIVE_CTRL GLUT_ACTIVE_CTRL <> 0 /\
     Z.land GLUT_ACTIVE_CTRL GLUT_ACTIVE_ALT = 0))
    by (right; split; [reflexivity|split; [discriminate|reflexivity]]).
  repeat (split; [assumption|]).
  apply (middle_drag_does_nothing (fun _ => Some 1%Q) 10 20 v _ _ Hb Hbutton).
Defined.

Lemma left_drag_in_empty_viewport_witness :
  let v := set_mouse_button (Some (GLUT_LEFT_BUTTON, 0)) (sample_viewer 30) in
  _mouse_button v = Some (GLUT_LEFT_BUTTON, 0) /\
  Z.land 0 GLUT_ACTIVE_CTRL = 0 /\ Z.land 0 GLUT_ACTIVE_ALT = 0 /\
  _height (set_height 0 v) = 0 /\
  result (handle_mouse_movement (fun _ => Some 1%Q) 10 20 (set_height 0 v))
  = inl ZeroDivisionError /\
  _height (set_width 0 v) <> 0 /\ _width (set_width 0 v) = 0 /\
  _d_phi (self (handle_mouse_movement (fun _ => Some 1%Q) 10 20 (set_width 0 v)))
  = (5 * inject_Z (20 - 600 / 2) / inject_Z 600)%Q.
Proof.
  intros v.
  assert (Hb : _mouse_button v = Some (GLUT_LEFT_BUTTON, 0)) by reflexivity.
  assert (Hc : Z.land 0 GLUT_ACTIVE_CTRL = 0) by reflexivity.
  assert (Ha : Z.land 0 GLUT_ACTIVE_ALT = 0) by reflexivity.
  assert (H0 : _height (set_height 0 v) = 0) by reflexivity.
  assert (HH : _height (set_width 0 v) <> 0) by discriminate.
  assert (HW : _width (set_width 0 v) = 0) by reflexivity.
  repeat (split; [assumption|]).
  destruct (left_drag_in_empty_viewport (fun _ => Some 1%Q) 10 20
              (set_height 0 v) 0 Hb Hc Ha) as [Hheight _].
  destruct (left_drag_in_empty_viewport (fun _ => Some 1%Q) 10 20
              (set_width 0 v) 0 Hb Hc Ha) as [_ Hwidth].
  rewrite (Hheight H0), (Hwidth HH HW).
  repeat (split; [assumption || reflexivity|]). reflexivity.
Defined.

(** ** Keys *)

Lemma set_trails_maxlen_same v :
  set_trails (_trails v) (set_maxlen (maxlen v) v) = v.
Proof. destruct v. reflexivity. Qed.

(** Rebuilding a trail that is within the capacity [m], with a capacity at
    least [m] and then with [m] again, gives the trail back. *)
Lemma rebuild_trail_back (m n : Z) (d : Deque.t point) :
  Deque.wf d -> Deque.maxlen d = m -> m <= n ->
  Deque.mk
    (lastn (Z.to_nat m)
       (Deque.items (Deque.mk (lastn (Z.to_nat n) (Deque.items d)) n))) m
  = d.
Proof.
  intros [Hn Hs] Hm Hmn. unfold Deque.size in Hs. simpl.
  rewrite !lastn_all by (rewrite ?lastn_length; lia).
  destruct d. simpl in *. congruence.
Qed.

Lemma rebuilt_trails_back (m n : Z) (trails : list (Deque.t point)) :
  Forall (fun d => Deque.wf d /\ Deque.maxlen d = m) trails -> m <= n ->
  (fun d => Deque.mk (lastn (Z.to_nat m) (Deque.items d)) m)
    <$> ((fun d => Deque.mk (lastn (Z.to_nat n) (Deque.items d)) n)
           <$> trails)
  = trails.
Proof.
  intros Hw Hmn. rewrite <- list_fmap_compose.
  rewrite <- (list_fmap_id trails) at 2.
  apply Forall_fmap_ext_1.
  eapply Forall_impl; [exact Hw|].
  intros d [Hwf Hd]. simpl. apply rebuild_trail_back; assumption.
Qed.

Lemma rebuilt_trails_same (m : Z) (trails : list (Deque.t point)) :
  Forall (fun d => Deque.wf d /\ Deque.maxlen d = m) trails ->
  (fun d => Deque.mk (lastn (Z.to_nat m) (Deque.items d)) m) <$> trails
  = trails.
Proof.
  intros Hw. rewrite <- (list_fmap_id trails) at 2.
  apply Forall_fmap_ext_1.
  eapply Forall_impl; [exact Hw|].
  intros d [[Hn Hs] Hd]. unfold Deque.size in Hs. simpl.
  rewrite lastn_all by lia. destruct d. simpl in *. congruence.
Qed.

Lemma keypress_capacity_outcome char x y v (m : Z) :
  (in_str char "+="%string = true /\ m = maxlen v * 2) \/
  (in_str char "_-"%string = true /\ m = Z.max 1 (maxlen v / 2)) ->
  0 <= m <= PY_SSIZE_T_MAX ->
  handle_keypress char x y v
  = mkOutcome
      (set_trails
         ((fun d => Deque.mk (lastn (Z.to_nat m) (Deque.items d)) m)
            <$> _trails v)
         (set_maxlen m v))
      [] (inr tt).
Proof.
  intros [[Hc ->] | [Hc ->]] Hm.
  - rewrite handle_keypress_plus by exact Hc.
    rewrite reset_trails_ok by exact Hm. reflexivity.
  - rewrite handle_keypress_minus by exact Hc.
    rewrite reset_trails_ok by exact Hm. reflexivity.
Qed.

(** Doubling the trail capacity, where the doubled capacity is one that a
    deque can have (at most [2^63 - 1]), and then halving it, with no tick
    in between, gives back the very same viewer: capacity, trails and
    all. *)
Theorem double_then_halve_restores up down x y x' y' v :
  inv v -> maxlen v * 2 <= PY_SSIZE_T_MAX ->
  in_str up "+="%string = true -> in_str down "_-"%string = true ->
  let o := handle_keypress up x y v in
  result o = inr tt /\ maxlen (self o) = maxlen v * 2 /\
  handle_keypress down x' y' (self o) = mkOutcome v [] (inr tt).
Proof.
  intros (Hm & _ & _ & Hw) Hfit Hup Hdown o. unfold o.
  rewrite (keypress_capacity_outcome up x y v (maxlen v * 2));
    [|left; split; [exact Hup|reflexivity]|lia].
  cbn [self result].
  split; [reflexivity|]. split; [reflexivity|].
  set (v1 := set_trails _ (set_maxlen (maxlen v * 2) v)).
  rewrite (keypress_capacity_outcome down x' y' v1 (maxlen v)); [| |lia].
  - f_equal. unfold v1. cbn [_trails set_trails].
    rewrite rebuilt_trails_back by (assumption || lia).
    transitivity (set_trails (_trails v) (set_maxlen (maxlen v) v));
      [reflexivity|apply set_trails_maxlen_same].
  - right. split; [exact Hdown|].
    change (maxlen v1) with (maxlen v * 2).
    rewrite Z.div_mul by lia. lia.
Qed.

Lemma double_then_halve_restores_witness :
  let v :=
    set_maxlen 2
      (set_trails
         [Deque.mk [[1; 2; 3]; [4; 5; 6]]%Q 2; Deque.mk [[7; 8; 9]]%Q 2]
         (sample_viewer 30)) in
  inv v /\ maxlen v * 2 <= PY_SSIZE_T_MAX /\
  in_str "+" "+="%string = true /\ in_str "-" "_-"%string = true /\
  handle_keypress "-" 0 0 (self (handle_keypress "+" 0 0 v))
  = mkOutcome v [] (inr tt).
Proof.
  intros v.
  assert (Hinv : inv v).
  { unfold inv, v. simpl. split; [lia|].
    split; [intros H; discriminate H|]. split; [reflexivity|].
    repeat (apply Forall_cons_2;
      [split; [unfold Deque.wf, Deque.size; simpl; lia|reflexivity]|]).
    apply Forall_nil_2. }
  assert (Hfit : maxlen v * 2 <= PY_SSIZE_T_MAX) by (intros H; discriminate H).
  assert (Hup : in_str "+" "+="%string = true) by reflexivity.
  assert (Hdown : in_str "-" "_-"%string = true) by reflexivity.
  repeat (split; [assumption|]).
  apply (double_then_halve_restores "+" "-" 0 0 0 0 v Hinv Hfit Hup Hdown).
Defined.

(** A doubling key pressed when the doubled capacity is more than a deque
    can have, in a viewer that has a trail: [OverflowError] is raised when
    the first trail is rebuilt, with the capacity already doubled and every
    trail as it was, of the capacity before. *)
Theorem doubling_beyond_deque_capacity_raises up x y v :
  in_str up "+="%string = true ->
  PY_SSIZE_T_MAX < maxlen v * 2 -> _trails v <> [] ->
  handle_keypress up x y v
  = mkOutcome (set_maxlen (maxlen v * 2) v) [] (inl OverflowError).
Proof.
  intros Hup Hbig Htrails.
  rewrite handle_keypress_plus by exact Hup.
  rewrite reset_trails_overflow by assumption. reflexivity.
Qed.

Lemma doubling_beyond_deque_capacity_raises_witness :
  let v :=
    set_maxlen (2 ^ 62)
      (set_trails [Deque.mk [[1; 2; 3]]%Q (2 ^ 62)] (sample_viewer 30)) in
  in_str "=" "+="%string = true /\
  PY_SSIZE_T_MAX < maxlen v * 2 /\ _trails v <> [] /\
  handle_keypress "=" 0 0 v
  = mkOutcome (set_maxlen (2 ^ 63) v) [] (inl OverflowError).
Proof.
  intros v.
  assert (Hup : in_str "=" "+="%string = true) by reflexivity.
  assert (Hbig : PY_SSIZE_T_MAX < maxlen v * 2) by reflexivity.
  assert (Htrails : _trails v <> []) by discriminate.
  repeat (split; [assumption|]).
  apply (doubling_beyond_deque_capacity_raises "=" 0 0 v Hup Hbig Htrails).
Defined.

(** At capacity 1 the halving keys change nothing. *)
Theorem halve_at_capacity_one_does_nothing down x y v :
  inv v -> maxlen v = 1 -> in_str down "_-"%string = true ->
  handle_keypress down x y v = mkOutcome v [] (inr tt).
Proof.
  intros (Hm & _ & _ & Hw) H1 Hdown.
  rewrite (keypress_capacity_outcome down x y v (maxlen v));
    [| |rewrite H1; unfold PY_SSIZE_T_MAX; lia].
  - f_equal. rewrite rebuilt_trails_same by assumption.
    apply set_trails_maxlen_same.
  - right. split; [exact Hdown|]. rewrite H1. reflexivity.
Qed.

Lemma halve_at_capacity_one_does_nothing_witness :
  let v :=
    set_trails [Deque.mk [[1; 2; 3]]%Q 1; Deque.mk [] 1] (sample_viewer 30) in
  inv v /\ maxlen v = 1 /\ in_str "_" "_-"%string = true /\
  handle_keypress "_" 0 0 v = mkOutcome v [] (inr tt).
Proof.
  intros v.
  assert (Hinv : inv v).
  { unfold inv, v. simpl. split; [lia|].
    split; [intros H; discriminate H|]. split; [reflexivity|].
    repeat (apply Forall_cons_2;
      [split; [unfold Deque.wf, Deque.size; simpl; lia|reflexivity]|]).
    apply Forall_nil_2. }
  assert (H1 : maxlen v = 1) by reflexivity.
  assert (Hdown : in_str "_" "_-"%string = true) by reflexivity.
  repeat (split; [assumption|]).
  apply (halve_at_capacity_one_does_nothing "_" 0 0 v Hinv H1 Hdown).
Defined.

(** A digit key that names a marker flips the flag of that marker and
    nothing else, and pressing it a second time gives back the viewer. *)
Theorem toggle_twice_restores char x y x' y' v b :
  in_str char "0123456789"%string = true ->
  visible v !! Z.to_nat (int_of_digit char) = Some b ->
  handle_keypress char x y v
  = mkOutcome
      (set_visible (<[Z.to_nat (int_of_digit char) := negb b]> (visible v)) v)
      [] (inr tt) /\
  handle_keypress char x' y' (self (handle_keypress char x y v))
  = mkOutcome v [] (inr tt).
Proof.
  intros Hd Hb. rewrite !handle_keypress_digit by exact Hd.
  rewrite Hb, xorb_true_r. split; [reflexivity|]. simpl.
  rewrite list_lookup_insert_eq by (apply lookup_lt_Some in Hb; exact Hb).
  rewrite xorb_true_r, negb_involutive, list_insert_insert_eq.
  rewrite list_insert_id by exact Hb.
  f_equal. transitivity (set_visible (visible v) v);
    [reflexivity|apply set_visible_same].
Qed.

Lemma toggle_twice_restores_witness :
  in_str "1" "0123456789"%string = true /\
  visible (sample_viewer 30) !! Z.to_nat (int_of_digit "1") = Some true /\
  visible (self (handle_keypress "1" 0 0 (sample_viewer 30))) = [true; false] /\
  handle_keypress "1" 0 0 (self (handle_keypress "1" 0 0 (sample_viewer 30)))
  = mkOutcome (sample_viewer 30) [] (inr tt).
Proof.
  assert (Hd : in_str "1" "0123456789"%string = true) by reflexivity.
  assert (Hb : visible (sample_viewer 30) !! Z.to_nat (int_of_digit "1")
               = Some true) by reflexivity.
  repeat (split; [assumption|]).
  destruct (toggle_twice_restores "1" 0 0 0 0 (sample_viewer 30) true Hd Hb)
    as [H1 H2].
  split; [rewrite H1; reflexivity|exact H2].
Defined.

(** A special key returns normally, makes no call to the outside and changes
    at most [theta], [phi] and [rho]; a key that is none of PageUp,
    PageDown and the four arrows changes nothing. *)
Theorem special_keys_move_only_the_camera key x y v :
  let o := handle_special_keypress key x y v in
  result o = inr tt /\ calls o = [] /\
  self o
  = set_rho (rho (self o))
      (set_phi (phi (self o)) (set_theta (theta (self o)) v)) /\
  (~ In key [GLUT_KEY_PAGE_UP; GLUT_KEY_PAGE_DOWN; GLUT_KEY_UP; GLUT_KEY_DOWN;
             GLUT_KEY_LEFT; GLUT_KEY_RIGHT] ->
   self o = v).
Proof.
  intros o. unfold o. split; [|split; [|split]].
  - unfold handle_special_keypress. split_ifs; reflexivity.
  - unfold handle_special_keypress. split_ifs; reflexivity.
  - unfold handle_special_keypress. split_ifs; destruct v; reflexivity.
  - intros Hkey. unfold handle_special_keypress.
    split_ifs; try reflexivity; exfalso; apply Hkey; simpl;
      repeat match goal with H : (_ =? _) = true |- _ =>
        apply Z.eqb_eq in H end; auto 10.
Qed.

Lemma special_keys_move_only_the_camera_witness :
  let v := sample_viewer 30 in
  ~ In 1 [GLUT_KEY_PAGE_UP; GLUT_KEY_PAGE_DOWN; GLUT_KEY_UP; GLUT_KEY_DOWN;
          GLUT_KEY_LEFT; GLUT_KEY_RIGHT] /\
  self (handle_special_keypress 1 0 0 v) = v.
Proof.
  intros v.
  assert (Hkey : ~ In 1 [GLUT_KEY_PAGE_UP; GLUT_KEY_PAGE_DOWN; GLUT_KEY_UP;
                         GLUT_KEY_DOWN; GLUT_KEY_LEFT; GLUT_KEY_RIGHT])
    by (simpl; intros H; repeat destruct H as [H|H]; try discriminate H;
        exact H).
  split; [exact Hkey|].
  destruct (special_keys_move_only_the_camera 1 0 0 v) as (_ & _ & _ & Hsame).
  exact (Hsame Hkey).
Defined.

(** ** Playback *)

Lemma append_points_lookup_all trails points (i : nat) :
  append_points trails points !! i
  = (fun d =>
       match points !! i with
       | Some p => Deque.append d (take 3 p)
       | None => d
       end) <$> trails !! i.
Proof.
  revert points i. induction trails as [|d trails IH];
    intros [|p points] [|i]; simpl; try reflexivity.
  - destruct (trails !! i); reflexivity.
  - apply IH.
Qed.

(** A tick that reads a frame gives a point to the markers the frame has a
    row for, in order, and leaves the other trails as they are: points
    beyond the last marker are dropped, markers beyond the last row are
    skipped, and the number of trails stays.  Each point is cut to its first
    three coordinates. *)
Theorem frame_rows_meet_trails_in_order now now' v f rest :
  paused v = false -> ~ (_d_rho v == 0)%Q -> ~ (_frame_rate v == 0)%Q ->
  (1 / _frame_rate v < now - _last_time v)%Q -> _frames v = f :: rest ->
  let u := self (handle_idle now now' v) in
  length (_trails u) = length (_trails v) /\
  forall i : nat,
    _trails u !! i
    = (fun d =>
         match fst f !! i with
         | Some p => Deque.append d (take 3 p)
         | None => d
         end) <$> _trails v !! i.
Proof.
  intros Hp Hd Hf He Hfr u. unfold u.
  rewrite (handle_idle_due now now' v f rest) by assumption. simpl.
  split; [apply append_points_length|].
  intros i. apply append_points_lookup_all.
Qed.

Lemma frame_rows_meet_trails_in_order_witness :
  let v :=
    set_frames [([[1; 2; 3; 4; 5]], [])]%Q (sample_viewer 2) in
  let u := self (handle_idle 1 2 v) in
  paused v = false /\ ~ (_d_rho v == 0)%Q /\ ~ (_frame_rate v == 0)%Q /\
  (1 / _frame_rate v < 1 - _last_time v)%Q /\
  _trails u = [Deque.mk [[1; 2; 3]]%Q 1; Deque.mk [] 1].
Proof.
  intros v u.
  assert (Hp : paused v = false) by reflexivity.
  assert (Hd : ~ (_d_rho v == 0)%Q) by (intros H; discriminate H).
  assert (Hf : ~ (_frame_rate v == 0)%Q) by (intros H; discriminate H).
  assert (He : (1 / _frame_rate v < 1 - _last_time v)%Q) by reflexivity.
  repeat (split; [assumption|]).
  destruct (frame_rows_meet_trails_in_order 1 2 v _ _ Hp Hd Hf He eq_refl)
    as [Hlen Hrows].
  apply list_eq. intros i. fold u in Hrows. rewrite Hrows.
  destruct i as [|[|i]]; reflexivity.
Defined.

(** With a frame rate of zero, the first tick that is not paused raises
    [ZeroDivisionError]: the camera has moved by then, no frame was read
    and nothing was slept. *)
Theorem zero_frame_rate_fails_at_first_tick r model_list v now now' :
  __init__ r model_list = inr v -> (frame_rate r == 0)%Q ->
  let o := handle_idle now now' v in
  result o = inl ZeroDivisionError /\ calls o = [] /\
  _frames (self o) = read_frames r /\ _trails (self o) = _trails v.
Proof.
  intros Hinit Hr o. rewrite init_returns in Hinit. injection Hinit as <-.
  unfold o. rewrite handle_idle_zero_rate;
    [|reflexivity|intros H; discriminate H|exact Hr].
  simpl. auto.
Qed.

Lemma zero_frame_rate_fails_at_first_tick_witness :
  __init__ (sample_reader 0) 1 = inr (sample_viewer 0) /\
  (frame_rate (sample_reader 0) == 0)%Q /\
  result (handle_idle 5 6 (sample_viewer 0)) = inl ZeroDivisionError.
Proof.
  assert (Hinit : __init__ (sample_reader 0) 1 = inr (sample_viewer 0))
    by reflexivity.
  assert (Hr : (frame_rate (sample_reader 0) == 0)%Q) by reflexivity.
  repeat (split; [assumption|]).
  apply (zero_frame_rate_fails_at_first_tick _ _ _ 5 6 Hinit Hr).
Defined.

Lemma Qinv_neg (q : Q) : (q < 0)%Q -> (1 / q < 0)%Q.
Proof.
  destruct q as [[|n|n] d]; unfold Qlt; simpl; try lia.
Qed.

(** With a negative frame rate playback is not paced: as long as the clock
    has not gone back behind the recorded time, every tick that is not
    paused reads a frame when there is one, raises [StopIteration] when
    there is none, and never sleeps. *)
Theorem negative_frame_rate_never_sleeps now now' v :
  paused v = false -> ~ (_d_rho v == 0)%Q -> (_frame_rate v < 0)%Q ->
  (_last_time v <= now)%Q ->
  let o := handle_idle now now' v in
  sleeps (calls o) = [] /\
  match _frames v with
  | f :: rest =>
      result o = inr tt /\ _frames (self o) = rest /\
      _last_time (self o) = now'
  | [] => result o = inl StopIteration
  end.
Proof.
  intros Hp Hd Hneg Hnow o.
  assert (Hf : ~ (_frame_rate v == 0)%Q).
  { intros H. rewrite H in Hneg. discriminate Hneg. }
  assert (He : (1 / _frame_rate v < now - _last_time v)%Q).
  { apply Qlt_le_trans with 0%Q; [apply Qinv_neg, Hneg|].
    unfold Qminus. rewrite <- Qle_minus_iff. exact Hnow. }
  unfold o. destruct (_frames v) as [|f rest] eqn:Hfr.
  - rewrite handle_idle_exhausted by assumption. split; reflexivity.
  - rewrite (handle_idle_due now now' v f rest) by assumption.
    repeat split; reflexivity.
Qed.

Lemma negative_frame_rate_never_sleeps_witness :
  let v := sample_viewer (-30) in
  paused v = false /\ ~ (_d_rho v == 0)%Q /\ (_frame_rate v < 0)%Q /\
  (_last_time v <= 0)%Q /\
  sleeps (calls (handle_idle 0 0 v)) = [] /\
  _frames (self (handle_idle 0 0 v)) = tail (_frames v).
Proof.
  intros v.
  assert (Hp : paused v = false) by reflexivity.
  assert (Hd : ~ (_d_rho v == 0)%Q) by (intros H; discriminate H).
  assert (Hneg : (_frame_rate v < 0)%Q) by reflexivity.
  assert (Hnow : (_last_time v <= 0)%Q) by (intros H; discriminate H).
  repeat (split; [assumption|]).
  destruct (negative_frame_rate_never_sleeps 0 0 v Hp Hd Hneg Hnow)
    as [Hs Hfr].
  split; [exact Hs|]. simpl in Hfr. tauto.
Defined.

(** ** Read-only methods *)

Lemma readonly_ret {A} (a : A) : readonly (mret a : M A).
Proof. intros v. reflexivity. Qed.

Lemma readonly_raise {A} e : readonly (raise e : M A).
Proof. intros v. reflexivity. Qed.

Lemma readonly_get : readonly get.
Proof. intros v. reflexivity. Qed.

Lemma readonly_emit c : readonly (emit c).
Proof. intros v. reflexivity. Qed.

Lemma readonly_fdiv x y : readonly (fdiv x y).
Proof. intros v. unfold fdiv. destruct (Qeq_bool y 0); reflexivity. Qed.

Lemma readonly_getitem {A} (l : list A) i : readonly (getitem l i).
Proof.
  intros v. unfold getitem. destruct (norm_index _ _ ≫= _); reflexivity.
Qed.

Lemma readonly_bind {A B} (m : M A) (f : A -> M B) :
  readonly m -> (forall a, readonly (f a)) -> readonly (m ≫= f).
Proof.
  intros Hm Hf v. unfold mbind, M_bind.
  specialize (Hm v). destruct (m v) as [v1 cs1 [e|a]]; simpl in *;
    [exact Hm|].
  specialize (Hf a v1). destruct (f a v1) as [v2 cs2 r]. simpl in *.
  congruence.
Qed.

Lemma readonly_foreach {A} (l : list A) (body : A -> M unit) :
  (forall x, readonly (body x)) -> readonly (foreach l body).
Proof.
  intros Hbody. induction l as [|x l IH]; simpl.
  - apply readonly_ret.
  - apply readonly_bind; [apply Hbody|intros _; exact IH].
Qed.

Ltac readonly_step :=
  first
    [ apply readonly_bind; [|intros ?]
    | apply readonly_emit | apply readonly_get | apply readonly_ret
    | apply readonly_raise | apply readonly_fdiv | apply readonly_getitem
    | apply readonly_foreach; intros ? ].

Lemma readonly_render_marker_points label c points :
  readonly (render_marker_points label c points).
Proof. unfold render_marker_points. repeat readonly_step. Qed.

Lemma readonly_render_model : readonly render_model.
Proof.
  unfold render_model. repeat readonly_step.
  destruct (negb _); repeat readonly_step.
Qed.

Lemma readonly_handle_draw : readonly handle_draw.
Proof.
  unfold handle_draw.
  repeat first [apply readonly_render_model | readonly_step].
Qed.

(** Drawing never changes the viewer: whatever state it is called in, and
    whether it returns or raises, [handle_draw] leaves every field as it
    was; so does compiling the model list. *)
Theorem draw_changes_nothing v :
  self (handle_draw v) = v /\ self (render_model v) = v.
Proof. split; [apply readonly_handle_draw|apply readonly_render_model]. Qed.

(** ** Sessions of many events *)

Section Sessions.
Variable exp : Q -> option Q.

Lemma dispatch_keeps_frames e v :
  is_idle e = false ->
  _frames (self (dispatch exp e v)) = _frames v /\
  _last_time (self (dispatch exp e v)) = _last_time v.
Proof.
  intros He. destruct e; try discriminate; simpl.
  - unfold handle_keypress, _reset_trails, getitem, setitem, mbind, M_bind,
      mret, M_ret, get, raise, modify.
    simpl. split_ifs; auto.
  - unfold handle_special_keypress. split_ifs; auto.
  - auto.
  - unfold handle_mouse_button, handle_mouse_movement, mbind, M_bind, mret,
      M_ret, get, fdiv, raise, modify.
    simpl. split_ifs; auto.
  - unfold handle_mouse_movement, mbind, M_bind, mret, M_ret, get, fdiv,
      raise, modify.
    simpl. split_ifs; auto.
  - rewrite readonly_handle_draw. auto.
Qed.

(** Only ticks read frames: over a session without idle events, whatever
    keys are pressed and whatever is dragged, resized or drawn, and
    whether or not the session ends in an exception, the frame iterator and
    the recorded time are left as they were. *)
Theorem only_ticks_read_frames events v :
  Forall (fun e => is_idle e = false) events ->
  _frames (self (mainloop exp events v)) = _frames v /\
  _last_time (self (mainloop exp events v)) = _last_time v.
Proof.
  intros Hall. revert v.
  induction Hall as [|e events He Hall IH]; intros v; [auto|].
  rewrite mainloop_cons.
  pose proof (dispatch_keeps_frames e v He) as H1.
  destruct (dispatch exp e v) as [v1 cs1 [err|[]]]; [exact H1|].
  specialize (IH v1).
  destruct (mainloop exp events v1) as [v2 cs2 r]. simpl in *.
  destruct H1 as [<- <-]. exact IH.
Qed.

(** While the viewer is paused, ticks in any number return normally, make no
    call to the outside, read no frame and leave the trails and the recorded
    time alone. *)
Theorem paused_ticks_read_nothing ticks v :
  paused v = true -> ~ (_d_rho v == 0)%Q ->
  let o := mainloop exp (idle_events ticks) v in
  result o = inr tt /\ calls o = [] /\ paused (self o) = true /\
  _frames (self o) = _frames v /\ _trails (self o) = _trails v /\
  _last_time (self o) = _last_time v.
Proof.
  revert v. induction ticks as [|t ticks IH]; intros v Hp Hd.
  - simpl. repeat split; assumption || reflexivity.
  - change (idle_events (t :: ticks))
      with (Idle (fst t) (snd t) :: idle_events ticks).
    rewrite mainloop_cons. simpl dispatch.
    rewrite handle_idle_paused by assumption.
    specialize (IH (integrated v) Hp Hd). simpl in IH.
    destruct (mainloop exp _ (integrated v)) as [v2 cs2 r]. simpl in *.
    exact IH.
Qed.

End Sessions.

Lemma only_ticks_read_frames_witness :
  let events :=
    [Keypress "+" 0 0; MouseButton 0 0 0 400 240; Reshape 640 480; Draw;
     Keypress "7" 0 0; Draw] in
  Forall (fun e => is_idle e = false) events /\
  _frames (self (mainloop (fun _ => Some 1%Q) events (sample_viewer 30)))
  = sample_frames.
Proof.
  intros events.
  assert (Hall : Forall (fun e => is_idle e = false) events)
    by (repeat (apply Forall_cons_2; [reflexivity|]); apply Forall_nil_2).
  split; [exact Hall|].
  apply (only_ticks_read_frames (fun _ => Some 1%Q) events (sample_viewer 30) Hall).
Defined.

Lemma paused_ticks_read_nothing_witness :
  let v := set_paused true (sample_viewer 30) in
  paused v = true /\ ~ (_d_rho v == 0)%Q /\
  calls (mainloop (fun _ => Some 1%Q) (idle_events [(1, 2); (3, 4); (50, 60)]%Q) v)
  = [] /\
  _frames
    (self (mainloop (fun _ => Some 1%Q)
             (idle_events [(1, 2); (3, 4); (50, 60)]%Q) v))
  = sample_frames.
Proof.
  intros v.
  assert (Hp : paused v = true) by reflexivity.
  assert (Hd : ~ (_d_rho v == 0)%Q) by (intros H; discriminate H).
  repeat (split; [assumption|]).
  pose proof (paused_ticks_read_nothing (fun _ => Some 1%Q)
                [(1, 2); (3, 4); (50, 60)]%Q v Hp Hd) as H.
  simpl in H. split; apply H.
Defined.

(** ** Playing a recording *)

Section Recording.
Variable exp : Q -> option Q.

Lemma sleeps_app cs cs' : sleeps (cs ++ cs') = sleeps cs ++ sleeps cs'.
Proof. apply omap_app. Qed.

Lemma overdue_ticks_outcome ticks :
  forall v,
    paused v = false -> ~ (_d_rho v == 0)%Q -> ~ (_frame_rate v == 0)%Q ->
    overdue (1 / _frame_rate v) (_last_time v) ticks ->
    let o := mainloop exp (idle_events ticks) v in
    let n := length ticks in
    result o
    = (if (n <=? length (_frames v))%nat then inr tt else inl StopIteration) /\
    _frames (self o) = drop n (_frames v) /\
    _trails (self o)
    = fold_left append_points (fst <$> take n (_frames v)) (_trails v) /\
    _last_time (self o)
    = last_reading (_last_time v) (take (length (_frames v)) ticks) /\
    sleeps (calls o) = [].
Proof.
  induction ticks as [|t ticks IH]; intros v Hp Hd Hf Hover.
  - cbn. rewrite take_nil. repeat split; reflexivity.
  - destruct Hover as [He Hover].
    change (idle_events (t :: ticks))
      with (Idle (fst t) (snd t) :: idle_events ticks).
    cbv zeta. rewrite mainloop_cons. simpl dispatch.
    destruct (_frames v) as [|f rest] eqn:Hfr.
    + rewrite handle_idle_exhausted by assumption. simpl. rewrite Hfr.
      repeat split; reflexivity.
    + rewrite (handle_idle_due (fst t) (snd t) v f rest) by assumption.
      set (v1 := set_last_time _ _).
      specialize (IH v1 Hp Hd Hf Hover). cbv zeta in IH.
      change (_frames v1) with rest in IH.
      change (_last_time v1) with (snd t) in IH.
      change (_trails v1) with (append_points (_trails v) (fst f)) in IH.
      destruct (mainloop exp (idle_events ticks) v1) as [v2 cs2 r].
      simpl in IH. simpl.
      destruct IH as (-> & -> & -> & -> & Hs).
      repeat split; try reflexivity. exact Hs.
Qed.

(** Over ticks that all come more than a period after the recorded time, one
    frame is read per tick, in order, and nothing is slept.  With no more
    ticks than frames the session returns, the frames not yet read remain
    and the recorded time is the second reading of the last tick; with more
    ticks than frames, the tick after the last frame raises
    [StopIteration], every frame having been read. *)
Theorem overdue_ticks_play_the_frames ticks v :
  paused v = false -> ~ (_d_rho v == 0)%Q -> ~ (_frame_rate v == 0)%Q ->
  overdue (1 / _frame_rate v) (_last_time v) ticks ->
  let o := mainloop exp (idle_events ticks) v in
  let n := length ticks in
  sleeps (calls o) = [] /\
  ((n <= length (_frames v))%nat ->
   result o = inr tt /\ _frames (self o) = drop n (_frames v) /\
   _trails (self o)
   = fold_left append_points (fst <$> take n (_frames v)) (_trails v) /\
   _last_time (self o) = last_reading (_last_time v) ticks) /\
  ((length (_frames v) < n)%nat ->
   result o = inl StopIteration /\ _frames (self o) = [] /\
   _trails (self o)
   = fold_left append_points (fst <$> _frames v) (_trails v)).
Proof.
  intros Hp Hd Hf Hover o n.
  destruct (overdue_ticks_outcome ticks v Hp Hd Hf Hover)
    as (Hres & Hfr & Htr & Hlast & Hs).
  fold o n in Hres, Hfr, Htr, Hlast, Hs.
  split; [exact Hs|]. split.
  - intros Hle. apply Nat.leb_le in Hle as Hb. rewrite Hb in Hres.
    rewrite take_ge in Hlast by exact Hle. auto.
  - intros Hlt. apply Nat.leb_gt in Hlt as Hb. rewrite Hb in Hres.
    rewrite drop_ge in Hfr by lia. rewrite take_ge in Htr by lia. auto.
Qed.

Lemma played_trail_lookup frames :
  forall trails (i : nat),
    fold_left append_points (fst <$> frames) trails !! i
    = (fun d => Deque.extend d (track i frames)) <$> trails !! i.
Proof.
  induction frames as [|f frames IH]; intros trails i.
  - simpl. destruct (trails !! i); reflexivity.
  - simpl. rewrite IH, append_points_lookup_all.
    destruct (trails !! i) as [d|]; [|reflexivity]. simpl.
    unfold track. simpl. destruct (fst f !! i); reflexivity.
Qed.

(** After such ticks the trail of each marker holds the most recent of its
    positions: what it held before followed by the positions of the marker
    in the frames that were read, cut down to the last [maxlen] of them. *)
Theorem played_trail_holds_latest_positions ticks v (i : nat) d :
  inv v ->
  paused v = false -> ~ (_d_rho v == 0)%Q -> ~ (_frame_rate v == 0)%Q ->
  overdue (1 / _frame_rate v) (_last_time v) ticks ->
  _trails v !! i = Some d ->
  exists d',
    _trails (self (mainloop exp (idle_events ticks) v)) !! i = Some d' /\
    Deque.maxlen d' = maxlen v /\
    Deque.items d'
    = lastn (Z.to_nat (maxlen v))
        (Deque.items d ++ track i (take (length ticks) (_frames v))).
Proof.
  intros Hinv Hp Hd Hf Hover Hi.
  destruct (overdue_ticks_outcome ticks v Hp Hd Hf Hover)
    as (_ & _ & -> & _).
  rewrite played_trail_lookup, Hi. simpl. eexists. split; [reflexivity|].
  destruct Hinv as (_ & _ & _ & Hw).
  rewrite Forall_lookup in Hw. destruct (Hw i d Hi) as [Hwf Hm].
  rewrite extend_maxlen, extend_items by exact Hwf.
  rewrite Hm. split; reflexivity.
Qed.

Lemma mainloop_visible_length events :
  forall v,
    inv v ->
    length (visible (self (mainloop exp events v))) = length (visible v).
Proof.
  induction events as [|e events IH]; intros v Hinv; [reflexivity|].
  rewrite mainloop_cons.
  pose proof (dispatch_inv exp e v Hinv) as Hinv1.
  assert (He : length (visible (self (dispatch exp e v)))
               = length (visible v)).
  { destruct (is_toggle e) eqn:Ht.
    - destruct (is_toggle_digit e Ht) as (char & x & y & -> & Hd).
      simpl. rewrite handle_keypress_digit by exact Hd.
      destruct (visible v !! _); [|reflexivity]. simpl.
      apply length_insert.
    - rewrite dispatch_visible_unchanged by assumption. reflexivity. }
  destruct (dispatch exp e v) as [v1 cs1 [err|[]]]; [exact He|].
  specialize (IH v1 (Hinv1 ltac:(discriminate))).
  destruct (mainloop exp events v1) as [v2 cs2 res]. simpl in *. congruence.
Qed.

(** Whatever the events of a session, the viewer it leaves has a trail
    capacity of at least 1, as many visibility flags and trails as the
    recording has markers, and every trail within the [maxlen] of its
    deque; that [maxlen] is the capacity of the viewer unless the session
    has ended with [OverflowError]. *)
Theorem session_keeps_viewer_well_formed r model_list v events :
  __init__ r model_list = inr v ->
  let o := mainloop exp events v in
  let u := self o in
  1 <= maxlen u /\
  length (visible u) = xrange_len (num_points r) /\
  length (_trails u) = xrange_len (num_points r) /\
  Forall (fun d => Z.of_nat (Deque.size d) <= Deque.maxlen d) (_trails u) /\
  (result o <> inl OverflowError ->
   Forall (fun d => Deque.maxlen d = maxlen u) (_trails u)).
Proof.
  intros Hinit o u.
  pose proof (init_inv _ _ _ Hinit) as Hinv.
  pose proof (mainloop_visible_length events v Hinv) as Hvis.
  assert (Hn : length (visible v) = xrange_len (num_points r)).
  { rewrite init_returns in Hinit. injection Hinit as <-. simpl.
    apply length_replicate. }
  assert (Hshape : 1 <= maxlen u /\
    length (visible u) = length (_trails u) /\
    Forall (fun d => Z.of_nat (Deque.size d) <= Deque.maxlen d) (_trails u)).
  { destruct (mainloop_inv_or_overflow exp events v Hinv)
      as [(Hm & _ & Hlen & Hw)|(_ & w & m & (_ & _ & Hlen & Hw) & Hm & Hu)].
    - split; [exact Hm|]. split; [exact Hlen|].
      eapply Forall_impl; [exact Hw|]. intros d [[_ Hs] _]. exact Hs.
    - unfold u, o. rewrite Hu. simpl.
      split; [exact Hm|]. split; [exact Hlen|].
      eapply Forall_impl; [exact Hw|]. intros d [[_ Hs] _]. exact Hs. }
  destruct Hshape as (Hm & Hlen & Hsize). fold o u in Hvis.
  split; [exact Hm|]. split; [congruence|]. split; [congruence|].
  split; [exact Hsize|].
  intros Hres.
  pose proof (mainloop_inv exp events v Hinv Hres) as (_ & _ & _ & Hw).
  eapply Forall_impl; [exact Hw|]. intros d [_ Hd]. exact Hd.
Qed.

End Recording.

Lemma overdue_ticks_play_the_frames_witness :
  let v := sample_viewer 30 in
  let ticks := [(1, 2); (3, 4); (5, 6)]%Q in
  paused v = false /\ ~ (_d_rho v == 0)%Q /\ ~ (_frame_rate v == 0)%Q /\
  overdue (1 / _frame_rate v) (_last_time v) ticks /\
  (length (_frames v) < length ticks)%nat /\
  result (mainloop (fun _ => Some 1%Q) (idle_events ticks) v) = inl StopIteration /\
  _trails (self (mainloop (fun _ => Some 1%Q) (idle_events ticks) v))
  = [Deque.mk [[7; 8; 9]]%Q 1; Deque.mk [[10; 11; 12]]%Q 1].
Proof.
  intros v ticks.
  assert (Hp : paused v = false) by reflexivity.
  assert (Hd : ~ (_d_rho v == 0)%Q) by (intros H; discriminate H).
  assert (Hf : ~ (_frame_rate v == 0)%Q) by (intros H; discriminate H).
  assert (Hover : overdue (1 / _frame_rate v) (_last_time v) ticks)
    by (repeat split).
  assert (Hlt : (length (_frames v) < length ticks)%nat) by (simpl; lia).
  repeat (split; [assumption|]).
  destruct (overdue_ticks_play_the_frames (fun _ => Some 1%Q) ticks v
              Hp Hd Hf Hover) as (_ & _ & Hend).
  destruct (Hend Hlt) as (Hres & _ & Htr).
  split; [exact Hres|]. rewrite Htr. reflexivity.
Defined.

Lemma played_trail_holds_latest_positions_witness :
  let v := sample_viewer 30 in
  let ticks := [(1, 2); (3, 4)]%Q in
  inv v /\ paused v = false /\ ~ (_d_rho v == 0)%Q /\
  ~ (_frame_rate v == 0)%Q /\
  overdue (1 / _frame_rate v) (_last_time v) ticks /\
  _trails v !! 1%nat = Some (Deque.mk [] 1) /\
  exists d',
    _trails (self (mainloop (fun _ => Some 1%Q) (idle_events ticks) v)) !! 1%nat
    = Some d' /\
    Deque.items d' = [[10; 11; 12]]%Q.
Proof.
  intros v ticks.
  assert (Hinv : inv v) by (apply (init_inv (sample_reader 30) 1); reflexivity).
  assert (Hp : paused v = false) by reflexivity.
  assert (Hd : ~ (_d_rho v == 0)%Q) by (intros H; discriminate H).
  assert (Hf : ~ (_frame_rate v == 0)%Q) by (intros H; discriminate H).
  assert (Hover : overdue (1 / _frame_rate v) (_last_time v) ticks)
    by (repeat split).
  assert (Hi : _trails v !! 1%nat = Some (Deque.mk [] 1)) by reflexivity.
  repeat (split; [assumption|]).
  destruct (played_trail_holds_latest_positions (fun _ => Some 1%Q) ticks v 1 _
              Hinv Hp Hd Hf Hover Hi) as (d' & Hd' & _ & Hitems).
  exists d'. split; [exact Hd'|]. exact (eq_trans Hitems eq_refl).
Defined.

Lemma session_keeps_viewer_well_formed_witness :
  let events :=
    [Keypress "+" 0 0; Idle 1 2; Keypress "+" 0 0; Idle 3 4;
     Keypress "-" 0 0; SpecialKeypress GLUT_KEY_PAGE_UP 0 0; Draw] in
  let u := self (mainloop sample_exp events (sample_viewer 30)) in
  __init__ (sample_reader 30) 1 = inr (sample_viewer 30) /\
  maxlen u = 2 /\ length (_trails u) = 2%nat /\
  Forall (fun d => Z.of_nat (Deque.size d) <= Deque.maxlen d) (_trails u).
Proof.
  intros events u.
  assert (Hinit : __init__ (sample_reader 30) 1 = inr (sample_viewer 30))
    by reflexivity.
  split; [exact Hinit|]. split; [reflexivity|].
  destruct (session_keeps_viewer_well_formed sample_exp
              (sample_reader 30) 1 (sample_viewer 30) events Hinit)
    as (_ & _ & Hn & Hsize & _).
  split; [exact Hn|exact Hsize].
Defined.

(** ** Resizing, and the program as a whole *)

Section ProgramFacts.
Variable exp : Q -> option Q.

(** After the window is resized, the next drawing divides the new surface:
    the viewports are those of the new width and height. *)
Theorem reshape_then_draw_uses_new_size w h v :
  0 <= w -> 0 < h -> ~ (rho v == 0)%Q ->
  (length (_trails v) <= length (visible v))%nat ->
  let o := mainloop exp [Reshape w h; Draw] v in
  result o = inr tt /\
  self o = set_height h (set_width w v) /\
  viewports (calls o)
  = [(0, 0, 2 * w / 3, h);
     (2 * w / 3, 0, 2 * w / 3 / 2, h / 3);
     (2 * w / 3, h / 3, 2 * w / 3 / 2, h / 3);
     (2 * w / 3, 2 * (h / 3), 2 * w / 3 / 2, h / 3)].
Proof.
  intros Hw Hh Hrho Hlen o. unfold o.
  rewrite mainloop_cons. simpl dispatch.
  change (handle_reshape w h v)
    with (mkOutcome (set_height h (set_width w v)) [] (inr tt)).
  cbv iota beta. rewrite mainloop_cons. simpl dispatch.
  destruct (handle_draw_viewports (set_height h (set_width w v)))
    as (Hres & Hself & Hvp); [simpl; lia|exact Hrho|exact Hlen|].
  destruct (handle_draw (set_height h (set_width w v))) as [v2 cs2 r].
  simpl in Hres, Hself, Hvp. subst r v2. simpl.
  rewrite ?app_nil_r, Hvp.
  rewrite !Z.quot_div_nonneg by lia. auto.
Qed.




End ProgramFacts.

Lemma reshape_then_draw_uses_new_size_witness :
  let v := sample_viewer 30 in
  0 <= 640 /\ 0 < 480 /\ ~ (rho v == 0)%Q /\
  (length (_trails v) <= length (visible v))%nat /\
  viewports (calls (mainloop (fun _ => Some 1%Q) [Reshape 640 480; Draw] v))
  = [(0, 0, 426, 480); (426, 0, 213, 160); (426, 160, 213, 160);
     (426, 320, 213, 160)].
Proof.
  intros v.
  assert (Hw : 0 <= 640) by discriminate.
  assert (Hh : 0 < 480) by reflexivity.
  assert (Hrho : ~ (rho v == 0)%Q) by (intros H; discriminate H).
  assert (Hlen : (length (_trails v) <= length (visible v))%nat)
    by (simpl; lia).
  repeat (split; [assumption|]).
  destruct (reshape_then_draw_uses_new_size (fun _ => Some 1%Q) 640 480 v
              Hw Hh Hrho Hlen) as (_ & _ & Hvp).
  exact (eq_trans Hvp eq_refl).
Defined.


